(** * Calendar-correct age breakdown: [age_counter/age_logic.py]

    The unit under verification is [calculate_detailed_age] of the
    age-counter exercise (Day 32), together with the guard its caller
    [AgeCounterUI.start_counter] (ui.py) puts in front of it.

    The function works on values of Python's [datetime.datetime].  The
    operations of that class which the function uses (the validating
    constructor, subtraction of two datetimes into a [timedelta], the field
    comparisons) are embedded first, following the reference implementation
    of the [datetime] module; then the function itself, line by line. *)

From Stdlib Require Import ZArith Lia List String Ascii Bool.
Import ListNotations.
Local Open Scope Z_scope.

(** ** Results of fallible Python code *)

(** The fields the [datetime] constructor validates, in the order it
    validates them. *)
Inductive field : Set :=
  | Year | Month | Day | Hour | Minute | Second | Microsecond.

(** The exceptions that can be raised on the paths modelled here.  The
    constructor's [ValueError] is kept apart from the one [start_counter]
    raises itself, whose message is part of the source. *)
Inductive exn : Set :=
  | ValueError_range (f : field)      (* datetime(...): field out of range *)
  | ValueError_msg (msg : string)     (* raise ValueError(msg) *)
  | OverflowError.                    (* datetime + timedelta leaves 1..9999 *)

Inductive result (A : Type) : Type :=
  | Ok (a : A)
  | Raise (e : exn).
Arguments Ok {A} a.
Arguments Raise {A} e.

Definition bind {A B : Type} (r : result A) (k : A -> result B) : result B :=
  match r with
  | Ok a => k a
  | Raise e => Raise e
  end.

Notation "'let*' x ':=' r 'in' k" := (bind r (fun x => k))
  (at level 10, x name, r at level 100, k at level 200).

Definition returns {A : Type} (r : result A) : Prop := exists a, r = Ok a.
Definition raises {A : Type} (r : result A) : Prop := exists e, r = Raise e.

(** ** The proleptic Gregorian calendar of the [datetime] module *)

Module Calendar.

Definition MINYEAR : Z := 1.
Definition MAXYEAR : Z := 9999.

(** [_DAYS_IN_MONTH] and [_DAYS_BEFORE_MONTH]; index 0 is a placeholder. *)
Definition _DAYS_IN_MONTH : list Z :=
  [-1; 31; 28; 31; 30; 31; 30; 31; 31; 30; 31; 30; 31].
Definition _DAYS_BEFORE_MONTH : list Z :=
  [-1; 0; 31; 59; 90; 120; 151; 181; 212; 243; 273; 304; 334].

Definition index (table : list Z) (i : Z) : Z := nth (Z.to_nat i) table (-1).

(** [year % 4 == 0 and (year % 100 != 0 or year % 400 == 0)] *)
Definition _is_leap (year : Z) : bool :=
  (year mod 4 =? 0) && (negb (year mod 100 =? 0) || (year mod 400 =? 0)).

(** Number of days before January 1st of [year]. *)
Definition _days_before_year (year : Z) : Z :=
  let y := year - 1 in
  y * 365 + y / 4 - y / 100 + y / 400.

Definition _days_in_month (year month : Z) : Z :=
  if (month =? 2) && _is_leap year then 29 else index _DAYS_IN_MONTH month.

Definition _days_before_month (year month : Z) : Z :=
  index _DAYS_BEFORE_MONTH month
  + (if (2 <? month) && _is_leap year then 1 else 0).

(** Ordinal of a date, 0001-01-01 being day 1. *)
Definition _ymd2ord (year month day : Z) : Z :=
  _days_before_year year + _days_before_month year month + day.

Definition _DI400Y : Z := 146097.
Definition _DI100Y : Z := 36524.
Definition _DI4Y : Z := 1461.
Definition _MAXORDINAL : Z := 3652059.

(** The inverse, from an ordinal back to (year, month, day). *)
Definition _ord2ymd (n : Z) : Z * Z * Z :=
  let n := n - 1 in
  let n400 := n / _DI400Y in
  let n := n mod _DI400Y in
  let year := n400 * 400 + 1 in
  let n100 := n / _DI100Y in
  let n := n mod _DI100Y in
  let n4 := n / _DI4Y in
  let n := n mod _DI4Y in
  let n1 := n / 365 in
  let n := n mod 365 in
  let year := year + n100 * 100 + n4 * 4 + n1 in
  if (n1 =? 4) || (n100 =? 4) then (year - 1, 12, 31)
  else
    let leapyear := (n1 =? 3) && (negb (n4 =? 24) || (n100 =? 3)) in
    let month := Z.shiftr (n + 50) 5 in
    let preceding :=
      index _DAYS_BEFORE_MONTH month
      + (if (2 <? month) && leapyear then 1 else 0) in
    if n <? preceding then
      let month := month - 1 in
      let preceding :=
        preceding
        - (index _DAYS_IN_MONTH month
           + (if (month =? 2) && leapyear then 1 else 0)) in
      (year, month, n - preceding + 1)
    else (year, month, n - preceding + 1).

End Calendar.
Import Calendar.

(** ** [datetime.datetime] and [datetime.timedelta] *)

(** A naive datetime (no [tzinfo], as [datetime.now()] and [strptime] produce
    them). *)
Record datetime : Set := mkDatetime {
  year : Z;
  month : Z;
  day : Z;
  hour : Z;
  minute : Z;
  second : Z;
  microsecond : Z
}.

Definition between (lo x hi : Z) : bool := (lo <=? x) && (x <=? hi).

(** [datetime(year, month, day, hour, minute, second, microsecond)]: the
    date fields are checked first, then the time fields. *)
Definition datetime_new (y m d h mi s us : Z) : result datetime :=
  if negb (between MINYEAR y MAXYEAR) then Raise (ValueError_range Year)
  else if negb (between 1 m 12) then Raise (ValueError_range Month)
  else if negb (between 1 d (_days_in_month y m)) then Raise (ValueError_range Day)
  else if negb (between 0 h 23) then Raise (ValueError_range Hour)
  else if negb (between 0 mi 59) then Raise (ValueError_range Minute)
  else if negb (between 0 s 59) then Raise (ValueError_range Second)
  else if negb (between 0 us 999999) then Raise (ValueError_range Microsecond)
  else Ok (mkDatetime y m d h mi s us).

(** The values of the class: exactly what the constructor accepts. *)
Definition valid_datetime (t : datetime) : bool :=
  between MINYEAR (year t) MAXYEAR
  && between 1 (month t) 12
  && between 1 (day t) (_days_in_month (year t) (month t))
  && between 0 (hour t) 23
  && between 0 (minute t) 59
  && between 0 (second t) 59
  && between 0 (microsecond t) 999999.

(** A timedelta in normal form: [0 <= seconds < 86400] and
    [0 <= microseconds < 1000000]; only [days] carries the sign. *)
Record timedelta : Set := mkTimedelta {
  td_days : Z;
  td_seconds : Z;
  td_microseconds : Z
}.

(** [timedelta(days, seconds, microseconds)] normalises its arguments. *)
Definition timedelta_new (d s us : Z) : timedelta :=
  let s := s + us / 1000000 in
  let us := us mod 1000000 in
  let d := d + s / 86400 in
  let s := s mod 86400 in
  mkTimedelta d s us.

Definition toordinal (t : datetime) : Z := _ymd2ord (year t) (month t) (day t).

Definition second_of_day (t : datetime) : Z :=
  second t + minute t * 60 + hour t * 3600.

(** [a - b] on two naive datetimes. *)
Definition datetime_sub (a b : datetime) : timedelta :=
  timedelta_new (toordinal a - toordinal b)
                (second_of_day a - second_of_day b)
                (microsecond a - microsecond b).

(** [t + delta]. *)
Definition datetime_add (t : datetime) (delta : timedelta) : result datetime :=
  let sum :=
    timedelta_new (toordinal t + td_days delta)
                  (second_of_day t + td_seconds delta)
                  (microsecond t + td_microseconds delta) in
  let h := td_seconds sum / 3600 in
  let rem := td_seconds sum mod 3600 in
  let mi := rem / 60 in
  let s := rem mod 60 in
  if (0 <? td_days sum) && (td_days sum <=? _MAXORDINAL) then
    let '(y, m, d) := _ord2ymd (td_days sum) in
    Ok (mkDatetime y m d h mi s (td_microseconds sum))
  else Raise OverflowError.

(** Python compares tuples, and datetimes, lexicographically. *)
Definition pair_lt (a b : Z * Z) : bool :=
  (fst a <? fst b) || ((fst a =? fst b) && (snd a <? snd b)).

Fixpoint lex_lt (a b : list Z) : bool :=
  match a, b with
  | x :: a', y :: b' => (x <? y) || ((x =? y) && lex_lt a' b')
  | [], _ :: _ => true
  | _, [] => false
  end.

Definition fields (t : datetime) : list Z :=
  [year t; month t; day t; hour t; minute t; second t; microsecond t].

Definition datetime_lt (a b : datetime) : bool := lex_lt (fields a) (fields b).
Definition datetime_le (a b : datetime) : bool := negb (datetime_lt b a).
Definition datetime_gt (a b : datetime) : bool := datetime_lt b a.

(** ** [age_logic.py] *)

(** The dictionary the function returns has exactly these six keys. *)
Record age : Set := mkAge {
  years : Z;
  months : Z;
  days : Z;
  hours : Z;
  minutes : Z;
  seconds : Z
}.

(** Lines 4-6. *)
Definition age_years (now dob : datetime) : Z :=
  let years := year now - year dob in
  if pair_lt (month now, day now) (month dob, day dob) then years - 1 else years.

(** Lines 8-12. *)
Definition age_months (now dob : datetime) : Z :=
  let months := month now - month dob in
  let months := if day now <? day dob then months - 1 else months in
  if months <? 0 then months + 12 else months.

(** Lines 14-19: year and month of the last (monthly) birthday. *)
Definition last_birthday_ym (dob : datetime) (years months : Z) : Z * Z :=
  let last_birthday_year := year dob + years in
  let last_birthday_month := month dob + months in
  if 12 <? last_birthday_month
  then (last_birthday_year + 1, last_birthday_month - 12)
  else (last_birthday_year, last_birthday_month).

(** Lines 21-28: the constructor call; [microsecond] is not passed and
    defaults to 0. *)
Definition last_birthday (dob : datetime) (years months : Z) : result datetime :=
  let '(last_birthday_year, last_birthday_month) :=
    last_birthday_ym dob years months in
  datetime_new last_birthday_year last_birthday_month (day dob)
               (hour dob) (minute dob) (second dob) 0.

Definition calculate_detailed_age (now dob : datetime) : result age :=
  let years := age_years now dob in
  let months := age_months now dob in
  let* last_birthday := last_birthday dob years months in
  let delta := datetime_sub now last_birthday in
  let days := td_days delta in
  let seconds_left := td_seconds delta in
  Ok {| years := years;
        months := months;
        days := days;
        hours := seconds_left / 3600;
        minutes := (seconds_left mod 3600) / 60;
        seconds := seconds_left mod 60 |}.

(** The origin's day of the month does not exist in the month of the last
    anniversary. *)
Definition origin_day_missing (now dob : datetime) : Prop :=
  let '(y, m) := last_birthday_ym dob (age_years now dob) (age_months now dob) in
  _days_in_month y m < day dob.

(** ** The caller's guard, [AgeCounterUI.start_counter] and [update_ui] (ui.py)

    [start_counter] reads the clock once for its check ([clock0]);
    [update_ui] reads it again ([clock1]) for the computation.  Any exception
    ends up as the text of the error label.  The parsing of the entry
    ([parse_dob]), the saving of the text and the widget updates around the
    two steps are left out: [dob] is the parsed datetime. *)
Definition future_dob_message : string := "DOB cannot be in the future".

Definition start_counter (clock0 clock1 dob : datetime) : result age :=
  if datetime_gt dob clock0 then Raise (ValueError_msg future_dob_message)
  else calculate_detailed_age clock1 dob.

(** ** Re-adding a breakdown to the origin

    The reconstruction law is stated with two operations that
    [age_logic.py] itself never performs: adding whole years and months to
    the origin's calendar date, and adding a fixed duration. *)

(** Calendar addition of years and months, in the spec's words: "adding
    [years] years and [months] months to origin's calendar date while
    keeping origin's time-of-day fixed; if the resulting month exceeds 12,
    subtract 12 from the month and add 1 to the year".  The whole time of day
    is kept, sub-second part included, as
    [origin.replace(year=..., month=...)] does. *)
Definition add_years_months (t : datetime) (y m : Z) : result datetime :=
  let y' := year t + y in
  let m' := month t + m in
  let '(y', m') := if 12 <? m' then (y' + 1, m' - 12) else (y', m') in
  datetime_new y' m' (day t) (hour t) (minute t) (second t) (microsecond t).

(** [timedelta(days=.., hours=.., minutes=.., seconds=..)] of a breakdown. *)
Definition timedelta_of_age (a : age) : timedelta :=
  timedelta_new (days a) (seconds a + minutes a * 60 + hours a * 3600) 0.

(** Years and months by calendar addition, the rest as a fixed duration. *)
Definition reconstruct (origin : datetime) (a : age) : result datetime :=
  let* anniversary := add_years_months origin (years a) (months a) in
  datetime_add anniversary (timedelta_of_age a).

Definition with_microsecond (t : datetime) (us : Z) : datetime :=
  mkDatetime (year t) (month t) (day t) (hour t) (minute t) (second t) us.

(** The Instant of the spec that a datetime stands for: "a point in time
    with year, month, day, hour, minute, second components".  A datetime
    carries microseconds besides, which an Instant does not have. *)
Definition instant (t : datetime) : Z * Z * Z * Z * Z * Z :=
  (year t, month t, day t, hour t, minute t, second t).

(** Position on the time line, in whole seconds since the start of day 0. *)
Definition timestamp (t : datetime) : Z := toordinal t * 86400 + second_of_day t.

(** The part of a breakdown below the month, as a number of seconds. *)
Definition remainder (a : age) : Z :=
  days a * 86400 + hours a * 3600 + minutes a * 60 + seconds a.

Definition zero_age : age := mkAge 0 0 0 0 0 0.

(** ** One second later

    The monotonicity property speaks of [now + timedelta(seconds=1)]. *)
Definition one_second : timedelta := timedelta_new 0 1 0.

(** The calendar date after (year, month, day). *)
Definition next_day (y m d : Z) : Z * Z * Z :=
  if d <? _days_in_month y m then (y, m, d + 1)
  else if m <? 12 then (y, m + 1, 1)
  else (y + 1, 1, 1).

(** The datetime one second later, field by field; [datetime_add] by
    [one_second] computes the same (lemma [datetime_add_one_second]). *)
Definition next_second (t : datetime) : datetime :=
  if second_of_day t <? 86399 then
    let s := second_of_day t + 1 in
    mkDatetime (year t) (month t) (day t)
               (s / 3600) (s mod 3600 / 60) (s mod 60) (microsecond t)
  else
    let '(y, m, d) := next_day (year t) (month t) (day t) in
    mkDatetime y m d 0 0 0 (microsecond t).

(** The month before (year, month). *)
Definition previous_month (y m : Z) : Z * Z :=
  if m =? 1 then (y - 1, 12) else (y, m - 1).

(** Year and month of the anniversary, read off the reference: its own
    month once the origin's day of the month is reached, the month before
    otherwise (lemma [last_birthday_ym_cases]). *)
Definition anniversary_ym (now dob : datetime) : Z * Z :=
  if day now <? day dob
  then if month now =? 1 then (year now - 1, 12) else (year now, month now - 1)
  else (year now, month now).

(** ** Scenario data *)

(** A datetime at a whole second. *)
Definition dt (y m d h mi s : Z) : datetime := mkDatetime y m d h mi s 0.

(** The origin of the spec's scenarios 1 and 2. *)
Definition born : datetime := dt 2000 3 15 10 0 0.

(** ** Auxiliary definitions for the calendar proofs *)

(** The tail of [_ord2ymd]: month and day from the offset in the year. *)
Definition month_day (leapyear : bool) (n : Z) : Z * Z :=
  let month := Z.shiftr (n + 50) 5 in
  let preceding :=
    index _DAYS_BEFORE_MONTH month
    + (if (2 <? month) && leapyear then 1 else 0) in
  if n <? preceding then
    let month := month - 1 in
    let preceding :=
      preceding
      - (index _DAYS_IN_MONTH month
         + (if (month =? 2) && leapyear then 1 else 0)) in
    (month, n - preceding + 1)
  else (month, n - preceding + 1).

(** [_ord2ymd] once the four quotients and the last remainder are known. *)
Definition ord2ymd_tail (n400 n100 n4 n1 n : Z) : Z * Z * Z :=
  let year := n400 * 400 + 1 + n100 * 100 + n4 * 4 + n1 in
  if (n1 =? 4) || (n100 =? 4) then (year - 1, 12, 31)
  else
    let leapyear := (n1 =? 3) && (negb (n4 =? 24) || (n100 =? 3)) in
    let '(m, d) := month_day leapyear n in (year, m, d).

(** Month length and days before a month, by the leap flag of the year. *)
Definition dim (leapyear : bool) (m : Z) : Z :=
  if (m =? 2) && leapyear then 29 else index _DAYS_IN_MONTH m.
Definition dbm (leapyear : bool) (m : Z) : Z :=
  index _DAYS_BEFORE_MONTH m + (if (2 <? m) && leapyear then 1 else 0).

Definition year_length (y : Z) : Z := if _is_leap y then 366 else 365.

(** ** Whole months and days between two dates *)

(** The number of whole calendar months from the origin's date to the
    reference's date. *)
Definition months_between (now dob : datetime) : Z :=
  12 * (year now - year dob) + (month now - month dob)
  - (if day now <? day dob then 1 else 0).

(** Whole days from the anniversary's date to the reference's date. *)
Definition day_gap (now dob : datetime) : Z :=
  if day now <? day dob
  then (let '(y, m) := previous_month (year now) (month now) in
        _days_in_month y m) - day dob + day now
  else day now - day dob.

(** The anniversary would fall in year 0. *)
Definition anniversary_in_year_0 (now : datetime) (dob : datetime) : Prop :=
  year now = 1 /\ month now = 1 /\ day now < day dob.

(** ** [validators.py]

    [parse_dob] strips the text and hands it to [datetime.strptime] with
    the format ["%Y-%m-%d %H:%M:%S"].  [strptime] is embedded for this one
    format, following [_strptime.py] of the reference implementation. *)

(** *** Text *)

(** A Python [str]: a sequence of Unicode code points. *)
Definition char : Set := N.
Definition text : Set := list char.

Definition text_of_string (s : string) : text :=
  map N_of_ascii (list_ascii_of_string s).

(** The two character classes of the Unicode database that the parsing of
    a date of birth consults.  Their tables are not spelled out: what is
    proved holds for every classification with these properties, which the
    database has. *)
Class Unicode : Type := {
  (** the digit value of a decimal digit (category Nd), as [\d] matches
      and [int] converts it *)
  decimal : char -> option Z;
  (** [str.isspace] of a single character, which [\s] matches and
      [str.strip] removes *)
  isspace : char -> bool;
  decimal_range : forall c v, decimal c = Some v -> 0 <= v <= 9;
  decimal_ascii :
    forall c, (48 <= c <= 57)%N -> decimal c = Some (Z.of_N c - 48);
  decimal_below_128 :
    forall c v, (c < 128)%N -> decimal c = Some v -> (48 <= c <= 57)%N;
  isspace_space : isspace 32%N = true;
  decimal_not_space : forall c v, decimal c = Some v -> isspace c = false
}.

(** The classification restricted to the code points below 256: the
    digits 0-9, and the whitespace characters tab to carriage return, file
    to unit separator, space, next line and no-break space.  Nothing above
    255 is classified; it serves to run the definitions on such texts. *)
Definition latin1_decimal (c : char) : option Z :=
  if ((48 <=? c) && (c <=? 57))%N then Some (Z.of_N c - 48) else None.

Definition latin1_isspace (c : char) : bool :=
  (((9 <=? c) && (c <=? 13)) || ((28 <=? c) && (c <=? 32))
   || (c =? 133) || (c =? 160))%N.

(** *** The regular expression of the format

    [strptime] turns the format into a regular expression, one named group
    per directive, and matches it at the start of the text. *)
Inductive group : Set := gY | gm | gd | gH | gM | gS.

Inductive regex : Set :=
  | Lit (c : char)                 (* a literal character *)
  | Digit                          (* \d *)
  | Range (lo hi : char)           (* [lo-hi] *)
  | Spaces                         (* \s+ *)
  | Seq (r1 r2 : regex)
  | Alt (r1 r2 : regex)            (* r1|r2, r1 tried first *)
  | Group (g : group) (r : regex). (* (?P<g>r) *)

Definition captures : Set := group -> text.

Definition group_eqb (a b : group) : bool :=
  match a, b with
  | gY, gY | gm, gm | gd, gd | gH, gH | gM, gM | gS, gS => true
  | _, _ => false
  end.

Definition capture (g : group) (t : text) (caps : captures) : captures :=
  fun g' => if group_eqb g g' then t else caps g'.

Definition no_captures : captures := fun _ => [].

(** What a sub-expression consumed, given what it left. *)
Definition consumed (s rest : text) : text :=
  firstn (List.length s - List.length rest) s.

Notation "r1 ;; r2" := (Seq r1 r2) (at level 61, right associativity).

Definition c0 : char := 48%N.
Definition c1 : char := 49%N.
Definition c2 : char := 50%N.
Definition c3 : char := 51%N.
Definition c5 : char := 53%N.
Definition c6 : char := 54%N.
Definition c9 : char := 57%N.
Definition hyphen : char := 45%N.
Definition colon : char := 58%N.
Definition space : char := 32%N.

(** The directives of the format, as [_strptime.TimeRE] has them. *)
Definition re_Y : regex := Group gY (Digit ;; Digit ;; Digit ;; Digit).
Definition re_m : regex :=
  Group gm (Alt (Alt (Lit c1 ;; Range c0 c2) (Lit c0 ;; Range c1 c9)) (Range c1 c9)).
Definition re_d : regex :=
  Group gd (Alt (Alt (Alt (Alt (Lit c3 ;; Range c0 c1) (Range c1 c2 ;; Digit))
                          (Lit c0 ;; Range c1 c9))
                     (Range c1 c9))
                (Lit space ;; Range c1 c9)).
Definition re_H : regex :=
  Group gH (Alt (Alt (Lit c2 ;; Range c0 c3) (Range c0 c1 ;; Digit)) Digit).
Definition re_M : regex := Group gM (Alt (Range c0 c5 ;; Digit) Digit).
Definition re_S : regex :=
  Group gS (Alt (Alt (Lit c6 ;; Range c0 c1) (Range c0 c5 ;; Digit)) Digit).

(** The expression for ["%Y-%m-%d %H:%M:%S"]: the blank of the format
    stands for any run of whitespace. *)
Definition format_regex : regex :=
  re_Y ;; Lit hyphen ;; re_m ;; Lit hyphen ;; re_d ;; Spaces ;;
  re_H ;; Lit colon ;; re_M ;; Lit colon ;; re_S.

Section Parsing.

Context {U : Unicode}.

(** [str.strip()] *)
Fixpoint lstrip (t : text) : text :=
  match t with
  | c :: t' => if isspace c then lstrip t' else t
  | [] => []
  end.

Definition rstrip (t : text) : text := rev (lstrip (rev t)).
Definition strip (t : text) : text := rstrip (lstrip t).

(** A text of whitespace only. *)
Definition blank (t : text) : Prop := Forall (fun c => isspace c = true) t.

Section Matcher.

Variable A : Type.

(** [\s+] is greedy: as many as there are, then fewer. *)
Fixpoint spaces_then (s : text) (k : text -> option A) : option A :=
  match s with
  | c :: s' =>
      if isspace c then
        match spaces_then s' k with
        | Some r => Some r
        | None => k s'
        end
      else None
  | [] => None
  end.

(** Backtracking match of [r] at the start of [s]; [k] is the rest of the
    expression. *)
Fixpoint rmatch (r : regex) (s : text) (caps : captures)
    (k : text -> captures -> option A) : option A :=
  match r with
  | Lit c =>
      match s with
      | c' :: s' => if (c' =? c)%N then k s' caps else None
      | [] => None
      end
  | Digit =>
      match s with
      | c' :: s' => match decimal c' with Some _ => k s' caps | None => None end
      | [] => None
      end
  | Range lo hi =>
      match s with
      | c' :: s' => if ((lo <=? c') && (c' <=? hi))%N then k s' caps else None
      | [] => None
      end
  | Spaces => spaces_then s (fun s' => k s' caps)
  | Seq r1 r2 => rmatch r1 s caps (fun s' caps' => rmatch r2 s' caps' k)
  | Alt r1 r2 =>
      match rmatch r1 s caps k with
      | Some x => Some x
      | None => rmatch r2 s caps k
      end
  | Group g r' =>
      rmatch r' s caps (fun s' caps' => k s' (capture g (consumed s s') caps'))
  end.

End Matcher.

(** [int(s)] on the content of a group: surrounding whitespace is
    dropped, then every character must be a decimal digit. *)
Fixpoint digits_value (acc : Z) (t : text) : option Z :=
  match t with
  | c :: t' =>
      match decimal c with
      | Some v => digits_value (10 * acc + v) t'
      | None => None
      end
  | [] => Some acc
  end.

Definition py_int (t : text) : option Z :=
  match strip t with
  | [] => None
  | t' => digits_value 0 t'
  end.

(** [datetime.strptime(data, "%Y-%m-%d %H:%M:%S")]; [None] stands for its
    [ValueError]s: no match, unconverted data after the match, or a field
    the [datetime] constructor rejects. *)
Definition strptime (data : text) : option datetime :=
  match rmatch _ format_regex data no_captures
          (fun rest caps => Some (rest, caps)) with
  | Some ([], found) =>
      match py_int (found gY), py_int (found gm), py_int (found gd),
            py_int (found gH), py_int (found gM), py_int (found gS) with
      | Some y, Some m, Some d, Some h, Some mi, Some s =>
          match datetime_new y m d h mi s 0 with
          | Ok t => Some t
          | Raise _ => None
          end
      | _, _, _, _, _, _ => None
      end
  | _ => None
  end.

Definition invalid_format_message : string :=
  "Invalid format. Use: YYYY-MM-DD HH:MM:SS".

(** validators.py, [parse_dob]. *)
Definition parse_dob (input_text : text) : result datetime :=
  match strptime (strip input_text) with
  | Some t => Ok t
  | None => Raise (ValueError_msg invalid_format_message)
  end.

End Parsing.

(** *** The texts of a datetime *)

(** The character of a digit value. *)
Definition digit (v : Z) : char := Z.to_N (48 + v).

Definition pad2 (n : Z) : text := [digit (n / 10); digit (n mod 10)].
Definition pad4 (n : Z) : text :=
  [digit (n / 1000); digit (n / 100 mod 10); digit (n / 10 mod 10); digit (n mod 10)].
Definition pad6 (n : Z) : text :=
  [digit (n / 100000); digit (n / 10000 mod 10); digit (n / 1000 mod 10);
   digit (n / 100 mod 10); digit (n / 10 mod 10); digit (n mod 10)].

(** [str(t)], that is [t.isoformat(sep=' ')]: the fraction is printed only
    when there is one. *)
Definition fraction_str (t : datetime) : text :=
  if microsecond t =? 0 then [] else 46%N :: pad6 (microsecond t).

Definition datetime_str (t : datetime) : text :=
  pad4 (year t) ++ [hyphen] ++ pad2 (month t) ++ [hyphen] ++ pad2 (day t)
  ++ [space] ++ pad2 (hour t) ++ [colon] ++ pad2 (minute t) ++ [colon]
  ++ pad2 (second t) ++ fraction_str t.

(** A number below 100 without a leading zero. *)
Definition short2 (n : Z) : text := if n <? 10 then [digit n] else pad2 n.

(** A datetime on a whole second written without leading zeros, except
    in the year. *)
Definition datetime_short (t : datetime) : text :=
  pad4 (year t) ++ [hyphen] ++ short2 (month t) ++ [hyphen] ++ short2 (day t)
  ++ [space] ++ short2 (hour t) ++ [colon] ++ short2 (minute t) ++ [colon]
  ++ short2 (second t).

(** The groups that the match finds in these two texts. *)
Definition found_in (t : datetime) : captures :=
  capture gS (pad2 (second t))
    (capture gM (pad2 (minute t))
       (capture gH (pad2 (hour t))
          (capture gd (pad2 (day t))
             (capture gm (pad2 (month t))
                (capture gY (pad4 (year t)) no_captures))))).

Definition found_short (t : datetime) : captures :=
  capture gS (short2 (second t))
    (capture gM (short2 (minute t))
       (capture gH (short2 (hour t))
          (capture gd (short2 (day t))
             (capture gm (short2 (month t))
                (capture gY (pad4 (year t)) no_captures))))).

(** The groups of an expression. *)
Fixpoint groups_of (r : regex) : list group :=
  match r with
  | Seq r1 r2 | Alt r1 r2 => groups_of r1 ++ groups_of r2
  | Group g r' => g :: groups_of r'
  | _ => []
  end.

(** ** [storage.py]

    The file [dob_history.csv] is modelled by what pandas finds in it: no
    file, a frame with the column [dob] alone, a frame with that column
    beside others, or nothing it can use.  The cells of the column are
    strings: a file in which pandas reads one of them as a number or as a
    missing value is not covered (no text that [parse_dob] accepts is read
    so). *)
Module Storage.

Inductive csv_file : Set :=
  | Absent                      (* FILE_PATH.exists() is false *)
  | Table (dobs : list text)    (* the column "dob" alone: its rows *)
  | Wide (dobs : list text)     (* the column "dob" beside others: its rows *)
  | Unreadable.                 (* read_csv or df["dob"] raises *)

(** What [to_csv] writes and [read_csv] then finds is decided by the
    quoting and parsing rules of pandas, which are not spelled out: a text
    need not come back as the row it was (one holding a carriage return
    can come back as two rows).  [read_back dobs] stands for the rows found
    in the file after a frame with the one column [dob] and the rows [dobs]
    has been written to it; nothing is assumed of it. *)
Class CsvRoundTrip : Type := {
  read_back : list text -> list text
}.

(** The round trip that gives every text back as it was written. *)
Definition verbatim : CsvRoundTrip := {| read_back := fun dobs => dobs |}.

Definition text_eqb (a b : text) : bool :=
  if list_eq_dec N.eq_dec a b then true else false.

(** [s in df["dob"].values] *)
Definition among (s : text) (dobs : list text) : bool := existsb (text_eqb s) dobs.

(** [None]: the exception of pandas leaves the function. *)
Definition load_dobs (file : csv_file) : option (list text) :=
  match file with
  | Absent => Some []
  | Table dobs => Some dobs
  | Wide dobs => Some dobs
  | Unreadable => None
  end.

(** The function returns nothing; the result is the file afterwards.  Every
    exception is swallowed: that of [read_csv] or [df["dob"]] on line 16 or
    17, and that of line 22, which gives one value to a row of several
    columns. *)
Definition save_dob {R : CsvRoundTrip} (dob_string : text) (file : csv_file) :
    csv_file :=
  match file with
  | Table dobs =>
      if among dob_string dobs then file
      else Table (read_back (dobs ++ [dob_string]))
  | Wide dobs =>
      if among dob_string dobs then file
      else file                 (* line 22 raises, nothing is written *)
  | Absent => Table (read_back [dob_string])
  | Unreadable => Unreadable
  end.

End Storage.

(** ** [ui.py]: the class [AgeCounterUI] *)
Module AgeCounterUI.

Import Storage.

Inductive colour : Set := black | red.

(** What [root.after] was asked to call. *)
Inductive callback : Set :=
  | UpdateUi          (* self.update_ui *)
  | ResetColour.      (* lambda: self.label.config(fg="black") *)

(** What choosing an entry of the dropdown does: the entries that
    [OptionMenu] builds set the variable and call [command]; those that
    [refresh_dropdown] adds set the variable only. *)
Inductive menu_command : Set := SetAndSelect | SetOnly.

(** An exception that reaches the handler of [start_counter]. *)
Inductive caught : Set :=
  | Python (e : exn)
  | Pandas.

Record state : Set := mkState {
  entry : text;                          (* the content of self.entry *)
  dob : option datetime;                 (* self.dob *)
  last_second : option Z;                (* self.last_second *)
  saved_dobs : list text;                (* self.saved_dobs *)
  dropdown_var : text;                   (* self.dropdown_var *)
  menu : list (text * menu_command);     (* self.dropdown["menu"] *)
  label_text : text;                     (* self.label *)
  label_fg : colour;
  error : option caught;                 (* self.error shows str(e), or "" *)
  after : list (Z * callback)            (* pending root.after calls *)
}.

Definition no_saved_dobs : text := text_of_string "No saved DOBs".

Definition set_entry (v : text) (st : state) : state :=
  mkState v (dob st) (last_second st) (saved_dobs st) (dropdown_var st)
          (menu st) (label_text st) (label_fg st) (error st) (after st).
Definition set_dob (v : option datetime) (st : state) : state :=
  mkState (entry st) v (last_second st) (saved_dobs st) (dropdown_var st)
          (menu st) (label_text st) (label_fg st) (error st) (after st).
Definition set_last_second (v : option Z) (st : state) : state :=
  mkState (entry st) (dob st) v (saved_dobs st) (dropdown_var st)
          (menu st) (label_text st) (label_fg st) (error st) (after st).
Definition set_saved_dobs (v : list text) (st : state) : state :=
  mkState (entry st) (dob st) (last_second st) v (dropdown_var st)
          (menu st) (label_text st) (label_fg st) (error st) (after st).
Definition set_dropdown_var (v : text) (st : state) : state :=
  mkState (entry st) (dob st) (last_second st) (saved_dobs st) v
          (menu st) (label_text st) (label_fg st) (error st) (after st).
Definition set_menu (v : list (text * menu_command)) (st : state) : state :=
  mkState (entry st) (dob st) (last_second st) (saved_dobs st) (dropdown_var st)
          v (label_text st) (label_fg st) (error st) (after st).
Definition set_label_text (v : text) (st : state) : state :=
  mkState (entry st) (dob st) (last_second st) (saved_dobs st) (dropdown_var st)
          (menu st) v (label_fg st) (error st) (after st).
Definition set_label_fg (v : colour) (st : state) : state :=
  mkState (entry st) (dob st) (last_second st) (saved_dobs st) (dropdown_var st)
          (menu st) (label_text st) v (error st) (after st).
Definition set_error (v : option caught) (st : state) : state :=
  mkState (entry st) (dob st) (last_second st) (saved_dobs st) (dropdown_var st)
          (menu st) (label_text st) (label_fg st) v (after st).
Definition call_after (ms : Z) (cb : callback) (st : state) : state :=
  mkState (entry st) (dob st) (last_second st) (saved_dobs st) (dropdown_var st)
          (menu st) (label_text st) (label_fg st) (error st) (after st ++ [(ms, cb)]).

(** [str] of an integer. *)
Fixpoint text_of_uint (u : Decimal.uint) : text :=
  match u with
  | Decimal.Nil => []
  | Decimal.D0 u => 48%N :: text_of_uint u
  | Decimal.D1 u => 49%N :: text_of_uint u
  | Decimal.D2 u => 50%N :: text_of_uint u
  | Decimal.D3 u => 51%N :: text_of_uint u
  | Decimal.D4 u => 52%N :: text_of_uint u
  | Decimal.D5 u => 53%N :: text_of_uint u
  | Decimal.D6 u => 54%N :: text_of_uint u
  | Decimal.D7 u => 55%N :: text_of_uint u
  | Decimal.D8 u => 56%N :: text_of_uint u
  | Decimal.D9 u => 57%N :: text_of_uint u
  end.

Definition str_int (z : Z) : text :=
  match Z.to_int z with
  | Decimal.Pos u => text_of_uint u
  | Decimal.Neg u => hyphen :: text_of_uint u
  end.

Definition newline : text := [10%N].

(** The text of the label, lines 112-121. *)
Definition render (a : age) : text :=
  text_of_string "LIVE AGE COUNTER" ++ newline
  ++ text_of_string "----------------------" ++ newline
  ++ str_int (years a) ++ text_of_string " years" ++ newline
  ++ str_int (months a) ++ text_of_string " months" ++ newline
  ++ str_int (days a) ++ text_of_string " days" ++ newline
  ++ str_int (hours a) ++ text_of_string " hours" ++ newline
  ++ str_int (minutes a) ++ text_of_string " minutes" ++ newline
  ++ str_int (seconds a) ++ text_of_string " seconds".

(** [__init__], lines 9-64; [None] when [load_dobs] raises. *)
Definition init (file : csv_file) : option state :=
  match load_dobs file with
  | None => None
  | Some saved =>
      let default_value :=
        match saved with
        | first :: _ => first
        | [] => no_saved_dobs
        end in
      Some {| entry := [];
              dob := None;
              last_second := None;
              saved_dobs := saved;
              dropdown_var := default_value;
              menu := map (fun v => (v, SetAndSelect)) (default_value :: saved);
              label_text := [];
              label_fg := black;
              error := None;
              after := [] |}
  end.

(** Lines 69-73. *)
Definition select_saved_dob (value : text) (st : state) : state :=
  if text_eqb value no_saved_dobs then st else set_entry value st.

(** The user picks entry [i] of the dropdown. *)
Definition choose (i : nat) (st : state) : state :=
  match nth_error (menu st) i with
  | Some (value, SetAndSelect) => select_saved_dob value (set_dropdown_var value st)
  | Some (value, SetOnly) => set_dropdown_var value st
  | None => st
  end.

(** Lines 98-100. *)
Definition flash_red (st : state) : state :=
  call_after 150 ResetColour (set_label_fg red st).

Definition same_second (last : option Z) (s : Z) : bool :=
  match last with
  | Some s' => s' =? s
  | None => false
  end.

(** Lines 105-129; [now] is the reading of the clock on line 109.  When
    the computation raises, nothing has been changed yet. *)
Definition update_ui (now : datetime) (st : state) : result state :=
  match dob st with
  | None => Ok st
  | Some d =>
      let* a := calculate_detailed_age now d in
      let st := set_label_text (render a) st in
      let st :=
        if same_second (last_second st) (seconds a) then st
        else set_last_second (Some (seconds a)) (flash_red st) in
      Ok (call_after 1000 UpdateUi st)
  end.

(** Lines 134-147; [None] when [load_dobs] raises. *)
Definition refresh_dropdown (file : csv_file) (st : state) : option state :=
  match load_dobs file with
  | None => None
  | Some saved =>
      let st := set_saved_dobs saved st in
      let st := set_menu (map (fun v => (v, SetOnly)) saved) st in
      Some (match List.rev saved with
            | newest :: _ => set_dropdown_var newest st
            | [] => st
            end)
  end.

Section WithUnicode.

Context {U : Unicode} {R : CsvRoundTrip}.

(** Lines 78-93; [clock0] and [clock1] are the readings of the clock on
    lines 83 and 109.  The result is the file and the object afterwards:
    the handler on line 92 catches everything. *)
Definition start_counter (clock0 clock1 : datetime) (file : csv_file)
    (st : state) : csv_file * state :=
  let dob_text := entry st in
  match parse_dob dob_text with
  | Raise e => (file, set_error (Some (Python e)) st)
  | Ok d =>
      let st := set_dob (Some d) st in
      if datetime_gt d clock0 then
        (file, set_error (Some (Python (ValueError_msg future_dob_message))) st)
      else
        let file := save_dob dob_text file in
        match refresh_dropdown file st with
        | None => (file, set_error (Some Pandas) st)
        | Some st =>
            let st := set_error None st in
            match update_ui clock1 st with
            | Raise e => (file, set_error (Some (Python e)) st)
            | Ok st => (file, st)
            end
        end
  end.

End WithUnicode.

(** The main loop runs the pending call number [i].  An exception in
    [update_ui] is reported by Tk and goes no further. *)
Definition remove_nth {A : Type} (i : nat) (l : list A) : list A :=
  firstn i l ++ skipn (S i) l.

Definition fire (i : nat) (now : datetime) (st : state) : state :=
  match nth_error (after st) i with
  | None => st
  | Some (_, cb) =>
      let st :=
        mkState (entry st) (dob st) (last_second st) (saved_dobs st)
                (dropdown_var st) (menu st) (label_text st) (label_fg st)
                (error st) (remove_nth i (after st)) in
      match cb with
      | ResetColour => set_label_fg black st
      | UpdateUi =>
          match update_ui now st with
          | Ok st' => st'
          | Raise _ => st
          end
      end
  end.

End AgeCounterUI.


(** *** What the proofs speak of *)

(** The rows that [load_dobs] finds, none when it cannot read. *)
Definition rows (file : Storage.csv_file) : list text :=
  match Storage.load_dobs file with
  | Some dobs => dobs
  | None => []
  end.



(** The number of pending calls of [update_ui]. *)
Definition pending_updates (st : AgeCounterUI.state) : nat :=
  List.length (filter (fun c => match snd c with
                                | AgeCounterUI.UpdateUi => true
                                | AgeCounterUI.ResetColour => false
                                end) (AgeCounterUI.after st)).

(** The object as [__init__] leaves it when there is no file. *)
Definition idle : AgeCounterUI.state :=
  AgeCounterUI.mkState [] None None [] AgeCounterUI.no_saved_dobs
    [(AgeCounterUI.no_saved_dobs, AgeCounterUI.SetAndSelect)]
    [] AgeCounterUI.black None [].

(** [self.dob] is unset, or a well-formed datetime on a whole second. *)
Definition whole_second_dob (st : AgeCounterUI.state) : Prop :=
  match AgeCounterUI.dob st with
  | None => True
  | Some d => valid_datetime d = true /\ microsecond d = 0
  end.

(** * Proofs *)

(** ** Tactics *)

(** Linear arithmetic with division and modulo by constants. *)
Ltac euclid := Z.to_euclidean_division_equations; lia.

(** Decide the table lookups and integer tests of the goal. *)
Ltac tests :=
  repeat first
    [ match goal with
      | |- context [index ?t ?k] =>
          let v := eval vm_compute in (index t k) in change (index t k) with v
      | |- context [?x <? ?y] => destruct (Z.ltb_spec x y); try (exfalso; lia)
      | |- context [?x =? ?y] => destruct (Z.eqb_spec x y); try (exfalso; lia)
      end
    | progress cbn [andb orb negb] in * ].

(** ** The calendar: ordinals and dates are inverse to each other *)

Lemma year_split (Y : Z) :
  0 <= Y ->
  exists a b c e,
    0 <= a /\ 0 <= b <= 3 /\ 0 <= c <= 24 /\ 0 <= e <= 3 /\
    Y = 400 * a + 100 * b + 4 * c + e.
Proof.
  intros HY.
  exists (Y / 400), (Y mod 400 / 100), (Y mod 100 / 4), (Y mod 4).
  euclid.
Qed.

Lemma is_leap_split a b c e :
  0 <= a -> 0 <= b <= 3 -> 0 <= c <= 24 -> 0 <= e <= 3 ->
  _is_leap (400 * a + 100 * b + 4 * c + e + 1)
  = (e =? 3) && (negb (c =? 24) || (b =? 3)).
Proof.
  intros Ha Hb Hc He. unfold _is_leap.
  repeat match goal with
  | |- context [?x =? ?y] => destruct (Z.eqb_spec x y)
  end; cbn; try reflexivity; exfalso; euclid.
Qed.

Lemma days_before_year_split a b c e :
  0 <= a -> 0 <= b <= 3 -> 0 <= c <= 24 -> 0 <= e <= 3 ->
  _days_before_year (400 * a + 100 * b + 4 * c + e + 1)
  = _DI400Y * a + _DI100Y * b + _DI4Y * c + 365 * e.
Proof.
  intros Ha Hb Hc He. unfold _days_before_year, _DI400Y, _DI100Y, _DI4Y.
  euclid.
Qed.

Lemma month_cases m : 1 <= m <= 12 ->
  m = 1 \/ m = 2 \/ m = 3 \/ m = 4 \/ m = 5 \/ m = 6 \/
  m = 7 \/ m = 8 \/ m = 9 \/ m = 10 \/ m = 11 \/ m = 12.
Proof. lia. Qed.

Ltac each_month m H :=
  let C := fresh "C" in
  pose proof (month_cases m H) as C;
  repeat (destruct C as [C | C]; [subst m | ]); [.. | subst m].

Lemma month_day_correct leapyear m d :
  1 <= m <= 12 -> 1 <= d <= dim leapyear m ->
  month_day leapyear (dbm leapyear m + d - 1) = (m, d).
Proof.
  intros Hm Hd. unfold month_day. rewrite Z.shiftr_div_pow2 by lia.
  change (2 ^ 5) with 32.
  remember (dbm leapyear m) as B eqn:HB.
  remember (dim leapyear m) as D eqn:HD.
  remember ((B + d - 1 + 50) / 32) as q eqn:Hq.
  assert (q = m \/ q = m + 1) as Hcase
    by (each_month m Hm; destruct leapyear; vm_compute in HB, HD; subst B D; euclid).
  each_month m Hm; destruct leapyear; vm_compute in HB, HD; subst B D;
    destruct Hcase as [Hc | Hc]; rewrite Hc in *; clear Hc;
    try (exfalso; euclid);
    tests; first [f_equal; lia | exfalso; lia].
Qed.

Lemma ord2ymd_unfold n0 :
  _ord2ymd n0 =
  let n := n0 - 1 in
  let r400 := n mod _DI400Y in
  let r100 := r400 mod _DI100Y in
  let r4 := r100 mod _DI4Y in
  ord2ymd_tail (n / _DI400Y) (r400 / _DI100Y) (r100 / _DI4Y) (r4 / 365) (r4 mod 365).
Proof.
  unfold _ord2ymd, ord2ymd_tail, month_day. cbv zeta.
  repeat match goal with
  | |- context [if ?b then _ else _] => destruct b
  end; reflexivity.
Qed.

Lemma divmod_unique n k q r :
  0 <= r < k -> n = k * q + r -> n / k = q /\ n mod k = r.
Proof.
  intros Hr Hn. split; symmetry.
  - apply (Z.div_unique n k q r); auto.
  - apply (Z.mod_unique n k q r); auto.
Qed.

Lemma ord2ymd_offset y r :
  1 <= y -> 0 <= r < year_length y ->
  _ord2ymd (_days_before_year y + r + 1) =
  if r =? 365 then (y, 12, 31)
  else let '(m, d) := month_day (_is_leap y) r in (y, m, d).
Proof.
  intros Hy Hr.
  destruct (year_split (y - 1)) as (a & b & c & e & Ha & Hb & Hc & He & HY); [lia|].
  replace y with (400 * a + 100 * b + 4 * c + e + 1) in * by lia. clear HY Hy.
  unfold year_length in Hr.
  rewrite is_leap_split in * by lia.
  rewrite days_before_year_split by lia.
  rewrite ord2ymd_unfold. cbv zeta.
  replace (_DI400Y * a + _DI100Y * b + _DI4Y * c + 365 * e + r + 1 - 1)
    with (_DI400Y * a + (_DI100Y * b + _DI4Y * c + 365 * e + r)) by lia.
  unfold _DI400Y, _DI100Y, _DI4Y in *.
  destruct (Z.eqb_spec r 365) as [E | Hr365]; [subst r | ].
  - (* the last day of a leap year *)
    destruct (Z.eqb_spec e 3) as [E | ]; cbn [andb] in Hr; [subst e | lia].
    destruct (Z.eqb_spec c 24) as [E | Hc24]; cbn [negb orb] in Hr; [subst c | ].
    + destruct (Z.eqb_spec b 3) as [E | ]; [subst b | lia].
      destruct (divmod_unique (146097 * a + (36524 * 3 + 1461 * 24 + 365 * 3 + 365))
                  146097 a 146096) as [-> ->]; [lia .. | ].
      change (146096 / 36524) with 4. change (146096 mod 36524) with 0.
      change (0 mod 1461) with 0. change (0 / 1461) with 0.
      change (0 / 365) with 0. change (0 mod 365) with 0.
      unfold ord2ymd_tail. change (0 =? 4) with false. change (4 =? 4) with true.
      cbn [orb]. f_equal. f_equal. lia.
    + destruct (divmod_unique (146097 * a + (36524 * b + 1461 * c + 365 * 3 + 365))
                  146097 a (36524 * b + 1461 * c + 1460)) as [-> ->]; [lia .. | ].
      destruct (divmod_unique (36524 * b + 1461 * c + 1460)
                  36524 b (1461 * c + 1460)) as [-> ->]; [lia .. | ].
      destruct (divmod_unique (1461 * c + 1460) 1461 c 1460) as [-> ->]; [lia .. | ].
      change (1460 / 365) with 4. change (1460 mod 365) with 0.
      unfold ord2ymd_tail. change (4 =? 4) with true.
      cbn [orb]. f_equal. f_equal. lia.
  - assert (r <= 364) as Hr' by (destruct ((e =? 3) && (negb (c =? 24) || (b =? 3))); lia).
    destruct (divmod_unique (146097 * a + (36524 * b + 1461 * c + 365 * e + r))
                146097 a (36524 * b + 1461 * c + 365 * e + r)) as [-> ->]; [lia .. | ].
    destruct (divmod_unique (36524 * b + 1461 * c + 365 * e + r)
                36524 b (1461 * c + 365 * e + r)) as [-> ->]; [lia .. | ].
    destruct (divmod_unique (1461 * c + 365 * e + r) 1461 c (365 * e + r))
      as [-> ->]; [lia .. | ].
    destruct (divmod_unique (365 * e + r) 365 e r) as [-> ->]; [lia .. | ].
    unfold ord2ymd_tail.
    destruct (Z.eqb_spec e 4); [lia | ].
    destruct (Z.eqb_spec b 4); [lia | ].
    cbn [orb]. cbv zeta.
    destruct (month_day _ r). f_equal. f_equal. lia.
Qed.

Lemma offset_bounds leapyear m d :
  1 <= m <= 12 -> 1 <= d <= dim leapyear m ->
  0 <= dbm leapyear m + d - 1 < (if leapyear then 366 else 365) /\
  (dbm leapyear m + d - 1 = 365 -> m = 12 /\ d = 31).
Proof.
  intros Hm Hd.
  each_month m Hm; destruct leapyear;
    match type of Hd with
    | context [dim ?l ?k] =>
        let v := eval vm_compute in (dim l k) in change (dim l k) with v in Hd
    end;
    match goal with
    | |- context [dbm ?l ?k] =>
        let v := eval vm_compute in (dbm l k) in change (dbm l k) with v
    end; cbv iota; lia.
Qed.

Theorem ord2ymd_ymd2ord y m d :
  1 <= y -> 1 <= m <= 12 -> 1 <= d <= _days_in_month y m ->
  _ord2ymd (_ymd2ord y m d) = (y, m, d).
Proof.
  intros Hy Hm Hd. unfold _ymd2ord.
  change (_days_in_month y m) with (dim (_is_leap y) m) in Hd.
  change (_days_before_month y m) with (dbm (_is_leap y) m).
  destruct (offset_bounds (_is_leap y) m d Hm Hd) as [Hr Hlast].
  replace (_days_before_year y + dbm (_is_leap y) m + d)
    with (_days_before_year y + (dbm (_is_leap y) m + d - 1) + 1) by lia.
  rewrite ord2ymd_offset by (unfold year_length; lia).
  destruct (Z.eqb_spec (dbm (_is_leap y) m + d - 1) 365) as [E | _].
  - destruct (Hlast E) as [-> ->]. reflexivity.
  - rewrite month_day_correct by assumption. reflexivity.
Qed.

(** ** Well-formed datetimes and the constructor *)

Lemma between_iff lo x hi : between lo x hi = true <-> lo <= x <= hi.
Proof. unfold between. rewrite andb_true_iff, !Z.leb_le. tauto. Qed.

Lemma valid_datetime_iff t :
  valid_datetime t = true <->
  1 <= year t <= 9999 /\ 1 <= month t <= 12 /\
  1 <= day t <= _days_in_month (year t) (month t) /\
  0 <= hour t <= 23 /\ 0 <= minute t <= 59 /\ 0 <= second t <= 59 /\
  0 <= microsecond t <= 999999.
Proof.
  unfold valid_datetime, MINYEAR, MAXYEAR.
  rewrite !andb_true_iff, !between_iff. tauto.
Qed.

Lemma datetime_new_valid y m d h mi s us :
  valid_datetime (mkDatetime y m d h mi s us) = true ->
  datetime_new y m d h mi s us = Ok (mkDatetime y m d h mi s us).
Proof.
  unfold valid_datetime, datetime_new. cbn [year month day hour minute second microsecond].
  rewrite !andb_true_iff. intros [[[[[[-> ->] ->] ->] ->] ->] ->]. reflexivity.
Qed.

Lemma datetime_new_inv y m d h mi s us t :
  datetime_new y m d h mi s us = Ok t ->
  t = mkDatetime y m d h mi s us /\ valid_datetime t = true.
Proof.
  unfold datetime_new.
  repeat match goal with
  | |- context [between ?a ?b ?c] =>
      let E := fresh "E" in destruct (between a b c) eqn:E; cbn [negb]; try discriminate
  end.
  intros [= <-]. split; [reflexivity | ].
  unfold valid_datetime. cbn [year month day hour minute second microsecond].
  repeat match goal with E : _ = true |- _ => rewrite E; clear E end. reflexivity.
Qed.


(** ** Ordinals of valid dates *)

Lemma days_before_year_succ y :
  _days_before_year (y + 1) = _days_before_year y + year_length y.
Proof.
  unfold _days_before_year, year_length, _is_leap.
  repeat match goal with
  | |- context [?x =? ?y] => destruct (Z.eqb_spec x y)
  end; cbn [andb orb negb]; euclid.
Qed.

Lemma days_before_year_mono y y' :
  y <= y' -> _days_before_year y <= _days_before_year y'.
Proof. unfold _days_before_year. intros H. euclid. Qed.

Lemma toordinal_range t :
  valid_datetime t = true -> 1 <= toordinal t <= _MAXORDINAL.
Proof.
  rewrite valid_datetime_iff. intros (Hy & Hm & Hd & _).
  unfold toordinal, _ymd2ord.
  change (_days_in_month (year t) (month t)) with (dim (_is_leap (year t)) (month t)) in Hd.
  change (_days_before_month (year t) (month t)) with (dbm (_is_leap (year t)) (month t)).
  destruct (offset_bounds _ _ _ Hm Hd) as [Hr _].
  pose proof (days_before_year_succ (year t)) as Hs. unfold year_length in Hs.
  pose proof (days_before_year_mono 1 (year t) ltac:(lia)) as H1.
  pose proof (days_before_year_mono (year t + 1) 10000 ltac:(lia)) as H2.
  change (_days_before_year 1) with 0 in H1.
  change (_days_before_year 10000) with 3652059 in H2.
  unfold _MAXORDINAL. destruct (_is_leap (year t)); lia.
Qed.

Lemma fromordinal_toordinal t :
  valid_datetime t = true -> _ord2ymd (toordinal t) = (year t, month t, day t).
Proof.
  rewrite valid_datetime_iff. intros (Hy & Hm & Hd & _).
  apply ord2ymd_ymd2ord; lia.
Qed.

(** ** Durations *)

(** A timedelta already in normal form is left alone. *)
Lemma timedelta_new_normal d s us :
  0 <= s < 86400 -> 0 <= us < 1000000 ->
  timedelta_new d s us = mkTimedelta d s us.
Proof.
  intros Hs Hus. unfold timedelta_new. cbv zeta.
  rewrite (Z.div_small us), (Z.mod_small us), Z.add_0_r by lia.
  rewrite (Z.div_small s), (Z.mod_small s), Z.add_0_r by lia.
  reflexivity.
Qed.

(** Normalisation keeps the total and yields the normal form. *)
Lemma timedelta_new_unique d s us d' s' us' :
  0 <= s' < 86400 -> 0 <= us' < 1000000 ->
  (d * 86400 + s) * 1000000 + us = (d' * 86400 + s') * 1000000 + us' ->
  timedelta_new d s us = mkTimedelta d' s' us'.
Proof.
  intros Hs Hus Htot. unfold timedelta_new. cbv zeta.
  destruct (divmod_unique us 1000000 ((d' - d) * 86400 + s' - s) us')
    as [-> ->]; [lia .. | ].
  destruct (divmod_unique (s + ((d' - d) * 86400 + s' - s)) 86400 (d' - d) s')
    as [-> ->]; [lia .. | ].
  f_equal. lia.
Qed.

Lemma second_of_day_range t :
  valid_datetime t = true -> 0 <= second_of_day t < 86400.
Proof.
  rewrite valid_datetime_iff. unfold second_of_day. lia.
Qed.

Lemma second_of_day_split t :
  valid_datetime t = true ->
  second_of_day t / 3600 = hour t /\
  second_of_day t mod 3600 / 60 = minute t /\
  second_of_day t mod 3600 mod 60 = second t /\
  second_of_day t mod 60 = second t.
Proof.
  rewrite valid_datetime_iff. unfold second_of_day.
  intros (_ & _ & _ & Hh & Hm & Hs & _). euclid.
Qed.

(** Subtraction, seen on the time line: microseconds never carry because the
    subtrahend sits on a whole second. *)
Lemma datetime_sub_whole a b :
  valid_datetime a = true -> microsecond b = 0 ->
  let delta := datetime_sub a b in
  td_days delta * 86400 + td_seconds delta = timestamp a - timestamp b /\
  0 <= td_seconds delta < 86400 /\
  td_microseconds delta = microsecond a.
Proof.
  rewrite valid_datetime_iff. intros (_ & _ & _ & _ & _ & _ & Hus) Hb.
  unfold datetime_sub, timedelta_new, timestamp. cbv zeta. rewrite Hb.
  cbn [td_days td_seconds td_microseconds].
  rewrite Z.sub_0_r, (Z.div_small (microsecond a)), (Z.mod_small (microsecond a)) by lia.
  rewrite Z.add_0_r. euclid.
Qed.

(** The difference of two datetimes is far inside the range of
    [timedelta] (at most 999999999 days either way), so the subtraction on
    line 30 cannot raise [OverflowError]. *)
Lemma datetime_sub_in_range a b :
  valid_datetime a = true -> valid_datetime b = true ->
  -999999999 <= td_days (datetime_sub a b) <= 999999999.
Proof.
  intros Ha Hb.
  pose proof (toordinal_range a Ha) as Hoa.
  pose proof (toordinal_range b Hb) as Hob.
  pose proof (second_of_day_range a Ha) as Hsa.
  pose proof (second_of_day_range b Hb) as Hsb.
  apply valid_datetime_iff in Ha, Hb.
  unfold datetime_sub, timedelta_new, _MAXORDINAL in *. cbv zeta.
  cbn [td_days]. euclid.
Qed.

(** Adding a duration that leads to a valid datetime returns it. *)
Lemma datetime_add_reaches t delta r :
  valid_datetime r = true ->
  ((toordinal t + td_days delta) * 86400 + (second_of_day t + td_seconds delta))
    * 1000000 + (microsecond t + td_microseconds delta)
  = timestamp r * 1000000 + microsecond r ->
  datetime_add t delta = Ok r.
Proof.
  intros Hr Htot. unfold datetime_add. cbv zeta.
  rewrite (timedelta_new_unique _ _ _ (toordinal r) (second_of_day r) (microsecond r)).
  - cbn [td_days td_seconds td_microseconds].
    pose proof (toordinal_range r Hr) as Ho.
    destruct (Z.ltb_spec 0 (toordinal r)); [ | lia].
    destruct (Z.leb_spec (toordinal r) _MAXORDINAL); [ | lia].
    cbn [andb]. rewrite (fromordinal_toordinal r Hr).
    destruct (second_of_day_split r Hr) as (-> & -> & -> & _).
    destruct r; reflexivity.
  - apply second_of_day_range, Hr.
  - apply valid_datetime_iff in Hr. lia.
  - unfold timestamp in Htot. lia.
Qed.

Theorem datetime_add_sub a b :
  valid_datetime a = true -> valid_datetime b = true ->
  datetime_add b (datetime_sub a b) = Ok a.
Proof.
  intros Ha Hb. apply datetime_add_reaches; [assumption | ].
  unfold datetime_sub, timedelta_new, timestamp. cbv zeta.
  cbn [td_days td_seconds td_microseconds]. euclid.
Qed.

(** ** Comparisons *)

Lemma pair_lt_iff a b :
  pair_lt a b = true <-> fst a < fst b \/ (fst a = fst b /\ snd a < snd b).
Proof.
  unfold pair_lt. rewrite orb_true_iff, andb_true_iff, !Z.ltb_lt, Z.eqb_eq. tauto.
Qed.

Lemma lex_lt_cons x a y b :
  lex_lt (x :: a) (y :: b) = true <-> x < y \/ (x = y /\ lex_lt a b = true).
Proof.
  cbn [lex_lt]. rewrite orb_true_iff, andb_true_iff, Z.ltb_lt, Z.eqb_eq. tauto.
Qed.

(** [a < b] on datetimes, field by field. *)
Lemma datetime_lt_iff a b :
  datetime_lt a b = true <->
  year a < year b \/ (year a = year b /\
  (month a < month b \/ (month a = month b /\
  (day a < day b \/ (day a = day b /\
  (hour a < hour b \/ (hour a = hour b /\
  (minute a < minute b \/ (minute a = minute b /\
  (second a < second b \/ (second a = second b /\
   microsecond a < microsecond b))))))))))).
Proof.
  unfold datetime_lt, fields. rewrite !lex_lt_cons. cbn [lex_lt].
  intuition congruence.
Qed.

Lemma datetime_le_iff a b :
  datetime_le a b = true <-> datetime_lt b a = false.
Proof. unfold datetime_le. apply negb_true_iff. Qed.

(** What [origin <= reference] says about the calendar dates. *)
Lemma datetime_le_date a b :
  datetime_le a b = true ->
  year a < year b \/ (year a = year b /\
  (month a < month b \/ (month a = month b /\ day a <= day b))).
Proof.
  rewrite datetime_le_iff. intros H.
  destruct (Z.lt_trichotomy (year a) (year b)) as [ | [Ey | ]];
  destruct (Z.lt_trichotomy (month a) (month b)) as [ | [Em | ]];
  destruct (Z.le_gt_cases (day a) (day b)); try lia;
  exfalso; apply not_true_iff_false in H; apply H; apply datetime_lt_iff; lia.
Qed.

Lemma datetime_le_refl t : datetime_le t t = true.
Proof.
  apply datetime_le_iff, not_true_iff_false. rewrite datetime_lt_iff. lia.
Qed.

(** ** The borrow logic of [calculate_detailed_age] *)

Lemma age_months_range now dob :
  1 <= month now <= 12 -> 1 <= month dob <= 12 ->
  0 <= age_months now dob <= 11.
Proof.
  intros Hn Hd. unfold age_months. cbv zeta.
  destruct (day now <? day dob);
    match goal with |- context [?x <? 0] => destruct (Z.ltb_spec x 0) end; lia.
Qed.

Lemma age_years_nonneg now dob :
  datetime_le dob now = true -> 0 <= age_years now dob.
Proof.
  intros Hle. apply datetime_le_date in Hle. unfold age_years. cbv zeta.
  destruct (pair_lt _ _) eqn:E; [ | lia].
  apply pair_lt_iff in E. cbn [fst snd] in E. lia.
Qed.

(** The anniversary falls in the month of [now] once the day of birth is
    reached there, and in the month before otherwise: whatever the order of
    the two datetimes. *)
Lemma last_birthday_ym_cases now dob :
  1 <= month now <= 12 -> 1 <= month dob <= 12 ->
  last_birthday_ym dob (age_years now dob) (age_months now dob) =
  if day now <? day dob
  then if month now =? 1 then (year now - 1, 12) else (year now, month now - 1)
  else (year now, month now).
Proof.
  intros Hn Hd. unfold last_birthday_ym, age_years, age_months, pair_lt.
  cbn [fst snd]. cbv zeta.
  tests; f_equal; lia.
Qed.

(** ** The shape of a call *)

Lemma calculate_detailed_age_inv now dob a :
  calculate_detailed_age now dob = Ok a ->
  exists lb,
    last_birthday dob (age_years now dob) (age_months now dob) = Ok lb /\
    a = {| years := age_years now dob;
           months := age_months now dob;
           days := td_days (datetime_sub now lb);
           hours := td_seconds (datetime_sub now lb) / 3600;
           minutes := td_seconds (datetime_sub now lb) mod 3600 / 60;
           seconds := td_seconds (datetime_sub now lb) mod 60 |}.
Proof.
  unfold calculate_detailed_age. cbv zeta.
  destruct (last_birthday _ _ _) as [lb | e]; cbn [bind]; [ | discriminate].
  intros [= <-]. eauto.
Qed.


Lemma last_birthday_inv dob y m lb :
  last_birthday dob y m = Ok lb ->
  valid_datetime lb = true /\ microsecond lb = 0 /\
  (year lb, month lb) = last_birthday_ym dob y m /\
  day lb = day dob /\ second_of_day lb = second_of_day dob.
Proof.
  unfold last_birthday. destruct (last_birthday_ym dob y m) as [ly lm].
  intros H. apply datetime_new_inv in H as [-> Hv]. auto.
Qed.


Lemma td_seconds_range a b : 0 <= td_seconds (datetime_sub a b) < 86400.
Proof.
  unfold datetime_sub, timedelta_new. cbv zeta. cbn [td_seconds].
  apply Z.mod_pos_bound. lia.
Qed.

(** The sub-month remainder of the result is the distance on the time line
    from the anniversary to [now]. *)
Lemma remainder_spec now dob a lb :
  valid_datetime now = true ->
  last_birthday dob (age_years now dob) (age_months now dob) = Ok lb ->
  calculate_detailed_age now dob = Ok a ->
  remainder a = timestamp now - timestamp lb /\
  0 <= hours a <= 23 /\ 0 <= minutes a <= 59 /\ 0 <= seconds a <= 59.
Proof.
  intros Hnow Hlb Ha.
  apply calculate_detailed_age_inv in Ha as (lb' & Hlb' & ->).
  rewrite Hlb in Hlb'. injection Hlb' as <-.
  apply last_birthday_inv in Hlb as (_ & Hus & _).
  destruct (datetime_sub_whole now lb Hnow Hus) as (Htot & Hs & _).
  unfold remainder. cbn [days hours minutes seconds].
  revert Htot Hs. generalize (td_seconds (datetime_sub now lb)).
  generalize (td_days (datetime_sub now lb)). intros D S Htot Hs. euclid.
Qed.

(** ** From one month to the next *)

Lemma days_in_month_ge_28 y m : 1 <= m <= 12 -> 28 <= _days_in_month y m.
Proof.
  intros Hm. change (_days_in_month y m) with (dim (_is_leap y) m).
  each_month m Hm; destruct (_is_leap y); vm_compute; discriminate.
Qed.

Lemma days_before_month_succ y m :
  1 <= m <= 11 ->
  _days_before_month y (m + 1) = _days_before_month y m + _days_in_month y m.
Proof.
  intros Hm. assert (1 <= m <= 12) as Hm' by lia.
  unfold _days_before_month, _days_in_month.
  each_month m Hm'; try lia; destruct (_is_leap y); reflexivity.
Qed.

Lemma days_before_january y : _days_before_month y 1 = 0.
Proof. unfold _days_before_month. destruct (_is_leap y); reflexivity. Qed.

Lemma days_before_december y :
  _days_before_month y 12 + _days_in_month y 12 = year_length y.
Proof.
  unfold _days_before_month, _days_in_month, year_length.
  destruct (_is_leap y); reflexivity.
Qed.

Lemma days_in_month_le_31 y m : 1 <= m <= 12 -> _days_in_month y m <= 31.
Proof.
  intros Hm. unfold _days_in_month.
  each_month m Hm; destruct (_is_leap y); vm_compute; discriminate.
Qed.

(** From day [d'] of the previous month to day [d] of this month. *)
Lemma ymd2ord_previous_month y m d d' :
  1 <= m <= 12 ->
  let '(py, pm) := previous_month y m in
  _ymd2ord y m d - _ymd2ord py pm d' = _days_in_month py pm - d' + d.
Proof.
  intros Hm. unfold previous_month, _ymd2ord.
  destruct (Z.eqb_spec m 1) as [-> | Hm1].
  - rewrite days_before_january.
    pose proof (days_before_year_succ (y - 1)) as Hs.
    replace (y - 1 + 1) with y in Hs by lia.
    pose proof (days_before_december (y - 1)). lia.
  - pose proof (days_before_month_succ y (m - 1) ltac:(lia)) as Hs.
    replace (m - 1 + 1) with m in Hs by lia. lia.
Qed.

(** ** The distance from the anniversary to the reference *)

Section Distance.

Variables now dob : datetime.
Hypothesis now_valid : valid_datetime now = true.
Hypothesis dob_valid : valid_datetime dob = true.

Let months_valid : 1 <= month now <= 12 /\ 1 <= month dob <= 12.
Proof.
  pose proof now_valid as Hn. pose proof dob_valid as Hd.
  apply valid_datetime_iff in Hn, Hd. lia.
Qed.

(** Whole days between the anniversary's date and the reference's date:
    never negative, and zero only on the origin's day of the month. *)
Lemma ordinal_gap lb :
  last_birthday dob (age_years now dob) (age_months now dob) = Ok lb ->
  toordinal now - toordinal lb =
  if day now <? day dob
  then _days_in_month (year lb) (month lb) - day dob + day now
  else day now - day dob.
Proof.
  intros Hlb.
  apply last_birthday_inv in Hlb as (Hv & _ & Hym & Hday & _).
  rewrite last_birthday_ym_cases in Hym by apply months_valid.
  unfold toordinal. rewrite Hday.
  destruct (day now <? day dob).
  - pose proof (ymd2ord_previous_month (year now) (month now) (day now) (day dob)
                  (proj1 months_valid)) as H.
    unfold previous_month in H.
    destruct (month now =? 1); injection Hym as -> ->; exact H.
  - injection Hym as -> ->. unfold _ymd2ord. lia.
Qed.

(** The [days] field is the gap in whole days, less one when the time of
    day of the origin has not been reached yet. *)
Lemma days_spec a :
  calculate_detailed_age now dob = Ok a ->
  exists gap,
    days a = (if second_of_day now <? second_of_day dob then gap - 1 else gap) /\
    0 <= gap /\ (gap = 0 <-> day now = day dob).
Proof.
  intros Ha.
  destruct (calculate_detailed_age_inv _ _ _ Ha) as (lb & Hlb & Ea).
  pose proof (ordinal_gap lb Hlb) as Hgap.
  destruct (last_birthday_inv _ _ _ _ Hlb) as (Hv & Hus & _ & Hday & Hsod).
  destruct (datetime_sub_whole now lb now_valid Hus) as (Htot & Hs & _).
  pose proof (second_of_day_range now now_valid) as Hn.
  pose proof (second_of_day_range dob dob_valid) as Hd.
  exists (toordinal now - toordinal lb).
  replace (days a) with (td_days (datetime_sub now lb)) by (subst a; reflexivity).
  unfold timestamp in Htot. rewrite Hsod in Htot.
  split; [ | rewrite Hgap; clear Htot].
  - destruct (Z.ltb_spec (second_of_day now) (second_of_day dob)); lia.
  - pose proof now_valid as Hnow. pose proof dob_valid as Hdob.
    apply valid_datetime_iff in Hnow, Hdob, Hv.
    destruct (Z.ltb_spec (day now) (day dob)); lia.
Qed.

(** X1: what holds of the six fields when origin <= reference: all the
    ranges C2 states, except that [days] is -1 on the origin's day of the
    month before the origin's time of day. *)
Lemma field_ranges a :
  datetime_le dob now = true ->
  calculate_detailed_age now dob = Ok a ->
  0 <= years a /\ 0 <= months a <= 11 /\ 0 <= hours a <= 23 /\
  0 <= minutes a <= 59 /\ 0 <= seconds a <= 59 /\ -1 <= days a /\
  (days a < 0 <->
   day now = day dob /\ second_of_day now < second_of_day dob).
Proof.
  intros Hle Ha.
  destruct (days_spec a Ha) as (gap & Hdays & Hgap & Hzero).
  destruct (calculate_detailed_age_inv _ _ _ Ha) as (lb & _ & Ea).
  pose proof (td_seconds_range now lb) as Hs.
  pose proof (age_years_nonneg now dob Hle) as Hy.
  assert (0 <= age_months now dob <= 11) as Hm
    by (apply age_months_range; apply months_valid).
  assert (0 <= hours a <= 23 /\ 0 <= minutes a <= 59 /\ 0 <= seconds a <= 59)
    as Hhms by (subst a; cbn [hours minutes seconds]; euclid).
  replace (years a) with (age_years now dob) by (subst a; reflexivity).
  replace (months a) with (age_months now dob) by (subst a; reflexivity).
  destruct (Z.ltb_spec (second_of_day now) (second_of_day dob)); lia.
Qed.

End Distance.

(** ** One second later *)

Lemma ymd2ord_next_day y m d :
  1 <= m <= 12 -> 1 <= d <= _days_in_month y m ->
  let '(y', m', d') := next_day y m d in
  _ymd2ord y' m' d' = _ymd2ord y m d + 1 /\
  1 <= m' <= 12 /\ 1 <= d' <= _days_in_month y' m' /\ y <= y' <= y + 1 /\
  (y' = y + 1 -> m = 12 /\ d = 31).
Proof.
  intros Hm Hd. unfold next_day, _ymd2ord.
  destruct (Z.ltb_spec d (_days_in_month y m)).
  - lia.
  - destruct (Z.ltb_spec m 12).
    + rewrite days_before_month_succ by lia.
      pose proof (days_in_month_ge_28 y (m + 1) ltac:(lia)). lia.
    + assert (m = 12) as -> by lia.
      rewrite days_before_year_succ, days_before_january.
      pose proof (days_before_december y).
      pose proof (days_in_month_ge_28 (y + 1) 1 ltac:(lia)).
      pose proof (days_in_month_le_31 y 12 ltac:(lia)).
      assert (_days_in_month y 12 = 31) as E
        by (unfold _days_in_month; destruct (_is_leap y); reflexivity).
      lia.
Qed.

Lemma last_day : _ord2ymd _MAXORDINAL = (9999, 12, 31).
Proof. reflexivity. Qed.

(** Only 9999-12-31 has the last ordinal. *)
Lemma toordinal_max t :
  valid_datetime t = true -> toordinal t = _MAXORDINAL ->
  year t = 9999 /\ month t = 12 /\ day t = 31.
Proof.
  intros Hv E. pose proof (fromordinal_toordinal t Hv) as H.
  rewrite E, last_day in H. injection H as <- <- <-. auto.
Qed.

Lemma next_second_spec t :
  valid_datetime t = true ->
  timestamp t + 1 < (_MAXORDINAL + 1) * 86400 ->
  valid_datetime (next_second t) = true /\
  timestamp (next_second t) = timestamp t + 1 /\
  microsecond (next_second t) = microsecond t.
Proof.
  intros Hv Hmax. pose proof (second_of_day_range t Hv) as Hs.
  pose proof (toordinal_range t Hv) as Ho.
  unfold next_second. destruct (Z.ltb_spec (second_of_day t) 86399).
  - cbv zeta. rewrite valid_datetime_iff in *. unfold timestamp, toordinal, second_of_day in *.
    cbn [year month day hour minute second microsecond].
    repeat split; try lia; euclid.
  - assert (second_of_day t = 86399) as Es by lia.
    apply valid_datetime_iff in Hv. destruct Hv as (Hy & Hm & Hd & _ & _ & _ & Hus).
    pose proof (ymd2ord_next_day (year t) (month t) (day t) Hm Hd) as Hn.
    destruct (next_day (year t) (month t) (day t)) as [[y' m'] d'].
    destruct Hn as (Hord & Hm' & Hd' & Hy' & Hlast).
    unfold timestamp, toordinal in *. rewrite valid_datetime_iff.
    unfold second_of_day in *.
    cbn [year month day hour minute second microsecond].
    assert (y' <= 9999) as Hy9.
    { destruct (Z.eq_dec y' (year t + 1)) as [E | ]; [ | lia].
      destruct (Hlast E) as [Em Ed].
      destruct (Z.eq_dec (year t) 9999) as [E9 | ]; [ | lia].
      exfalso. rewrite E9, Em, Ed in Hmax.
      change (_ymd2ord 9999 12 31) with _MAXORDINAL in Hmax. lia. }
    repeat split; lia.
Qed.

(** [now + timedelta(seconds=1)], unless that leaves the calendar. *)
Lemma datetime_add_one_second t :
  valid_datetime t = true ->
  timestamp t + 1 < (_MAXORDINAL + 1) * 86400 ->
  datetime_add t one_second = Ok (next_second t).
Proof.
  intros Hv Hmax.
  destruct (next_second_spec t Hv Hmax) as (Hv' & Hts & Hus).
  apply datetime_add_reaches; [assumption | ].
  rewrite Hts, Hus. unfold timestamp.
  change (td_days one_second) with 0. change (td_seconds one_second) with 1.
  change (td_microseconds one_second) with 0. lia.
Qed.

Lemma datetime_add_one_second_overflow t :
  valid_datetime t = true ->
  (_MAXORDINAL + 1) * 86400 <= timestamp t + 1 ->
  datetime_add t one_second = Raise OverflowError.
Proof.
  intros Hv Hmax.
  pose proof (second_of_day_range t Hv) as Hs.
  pose proof (toordinal_range t Hv) as Ho.
  unfold timestamp in Hmax.
  unfold datetime_add. cbv zeta.
  rewrite (timedelta_new_unique _ _ _ (_MAXORDINAL + 1) 0 (microsecond t)).
  - cbn [td_days]. change (0 <? _MAXORDINAL + 1) with true.
    change (_MAXORDINAL + 1 <=? _MAXORDINAL) with false. reflexivity.
  - lia.
  - apply valid_datetime_iff in Hv. lia.
  - change (td_days one_second) with 0. change (td_seconds one_second) with 1.
    change (td_microseconds one_second) with 0. unfold _MAXORDINAL in *. lia.
Qed.

(** ** The breakdown as a function of the anniversary month *)

Lemma total_months dob y m :
  let '(ly, lm) := last_birthday_ym dob y m in
  12 * y + m = 12 * (ly - year dob) + (lm - month dob).
Proof.
  unfold last_birthday_ym. cbv zeta. destruct (12 <? month dob + m); lia.
Qed.

Lemma anniversary_facts now dob a :
  valid_datetime now = true -> valid_datetime dob = true ->
  calculate_detailed_age now dob = Ok a ->
  let '(ly, lm) := anniversary_ym now dob in
  12 * years a + months a = 12 * (ly - year dob) + (lm - month dob) /\
  0 <= months a <= 11 /\
  day dob <= _days_in_month ly lm /\
  remainder a =
    timestamp now - (_ymd2ord ly lm (day dob) * 86400 + second_of_day dob).
Proof.
  intros Hnow Hdob Ha.
  destruct (calculate_detailed_age_inv _ _ _ Ha) as (lb & Hlb & Ea).
  destruct (remainder_spec now dob a lb Hnow Hlb Ha) as (Hrem & _).
  destruct (last_birthday_inv _ _ _ _ Hlb) as (Hv & _ & Hym & Hday & Hsod).
  pose proof (total_months dob (age_years now dob) (age_months now dob)) as Htot.
  assert (0 <= age_months now dob <= 11) as Hm
    by (apply valid_datetime_iff in Hnow, Hdob; apply age_months_range; lia).
  rewrite last_birthday_ym_cases in Hym, Htot
    by (apply valid_datetime_iff in Hnow, Hdob; lia).
  fold (anniversary_ym now dob) in Hym, Htot.
  destruct (anniversary_ym now dob) as [ly lm]. injection Hym as Ey Em.
  replace (years a) with (age_years now dob) by (subst a; reflexivity).
  replace (months a) with (age_months now dob) by (subst a; reflexivity).
  rewrite Hrem. unfold timestamp at 2. unfold toordinal.
  rewrite Hsod, Hday, Ey, Em.
  apply valid_datetime_iff in Hv. rewrite Ey, Em, Hday in Hv. lia.
Qed.

(** X2: one second later, either years and months stay and the remainder
    grows by one second, or the count of whole months grows by one; the
    latter happens at midnight, when the origin's day of the month begins,
    and the remainder then restarts below zero by the origin's time of
    day. *)
Lemma advance_one_second now now' dob a a' :
  valid_datetime now = true -> valid_datetime dob = true ->
  datetime_add now one_second = Ok now' ->
  calculate_detailed_age now dob = Ok a ->
  calculate_detailed_age now' dob = Ok a' ->
  (years a' = years a /\ months a' = months a /\
   remainder a' = remainder a + 1) \/
  (12 * years a' + months a' = 12 * years a + months a + 1 /\
   second_of_day now' = 0 /\ day now' = day dob /\
   remainder a' = - second_of_day dob).
Proof.
  intros Hnow Hdob Hadd Ha Ha'.
  destruct (Z.lt_ge_cases (timestamp now + 1) ((_MAXORDINAL + 1) * 86400))
    as [Hmax | Hmax];
    [ | rewrite datetime_add_one_second_overflow in Hadd by assumption;
        discriminate ].
  rewrite datetime_add_one_second in Hadd by assumption.
  injection Hadd as <-.
  destruct (next_second_spec now Hnow Hmax) as (Hnow' & Hts & _).
  pose proof (anniversary_facts now dob a Hnow Hdob Ha) as F.
  pose proof (anniversary_facts _ dob a' Hnow' Hdob Ha') as F'.
  pose proof (second_of_day_range now Hnow) as Hsod.
  apply valid_datetime_iff in Hnow, Hdob.
  destruct Hnow as (Hy & Hm & Hd & _). destruct Hdob as (_ & Hm0 & Hd0 & _).
  revert Hts F'. unfold next_second.
  destruct (Z.ltb_spec (second_of_day now) 86399) as [Hs | Hs]; cbv zeta.
  - (* the same day *)
    unfold anniversary_ym in *.
    cbn [year month day hour minute second microsecond].
    destruct (if day now <? day dob then _ else _) as [ly lm].
    intros Hts F'. left. lia.
  - (* midnight *)
    pose proof (ymd2ord_next_day (year now) (month now) (day now) Hm Hd) as Hn.
    pose proof (ymd2ord_previous_month (year now) (month now) (day now) (day dob) Hm) as Hp.
    revert Hn. unfold next_day.
    unfold anniversary_ym, previous_month in *. unfold timestamp, toordinal in *.
    remember (second_of_day now) as S eqn:ES.
    remember (second_of_day dob) as S0 eqn:ES0.
    destruct (Z.ltb_spec (day now) (_days_in_month (year now) (month now)));
      [ | destruct (Z.ltb_spec (month now) 12)];
      cbn [year month day hour minute second microsecond];
      unfold second_of_day;
      cbn [year month day hour minute second microsecond];
      intros Hn Hts F';
      repeat match goal with
      | H : context [?x <? ?y] |- _ => destruct (Z.ltb_spec x y)
      | H : context [?x =? ?y] |- _ => destruct (Z.eqb_spec x y)
      end;
      cbv beta iota in F, F', Hp;
      rewrite ?Z.add_simpl_r in *;
      try (assert (month now = 12) as E12 by lia; rewrite E12 in * );
      unfold _ymd2ord in *; try lia.
Qed.

(** ** Re-adding a breakdown *)

Lemma with_microsecond_valid t us :
  valid_datetime t = true -> 0 <= us <= 999999 ->
  valid_datetime (with_microsecond t us) = true.
Proof.
  rewrite !valid_datetime_iff. unfold with_microsecond.
  cbn [year month day hour minute second microsecond]. intuition.
Qed.

Lemma with_microsecond_same t : with_microsecond t (microsecond t) = t.
Proof. destruct t; reflexivity. Qed.

(** Calendar addition of the returned years and months lands on the
    anniversary the function built, with the origin's sub-second part. *)
Lemma add_years_months_last_birthday dob y m lb :
  valid_datetime dob = true ->
  last_birthday dob y m = Ok lb ->
  add_years_months dob y m = Ok (with_microsecond lb (microsecond dob)).
Proof.
  intros Hdob Hlb. pose proof Hlb as Hlb'. revert Hlb'.
  unfold last_birthday, add_years_months, last_birthday_ym. cbv zeta.
  destruct (12 <? month dob + m); intros H;
    apply datetime_new_inv in H as [-> Hv];
    apply datetime_new_valid;
    apply (with_microsecond_valid _ (microsecond dob)) in Hv;
    try exact Hv; apply valid_datetime_iff in Hdob; lia.
Qed.

(** The duration rebuilt from the six fields is the measured one, less its
    microseconds. *)
Lemma timedelta_of_age_spec now dob a lb :
  last_birthday dob (age_years now dob) (age_months now dob) = Ok lb ->
  calculate_detailed_age now dob = Ok a ->
  timedelta_of_age a =
  mkTimedelta (td_days (datetime_sub now lb)) (td_seconds (datetime_sub now lb)) 0.
Proof.
  intros Hlb Ha.
  apply calculate_detailed_age_inv in Ha as (lb' & Hlb' & ->).
  rewrite Hlb in Hlb'. injection Hlb' as <-.
  unfold timedelta_of_age. cbn [days hours minutes seconds].
  pose proof (td_seconds_range now lb) as Hs.
  replace (_ + _ * 60 + _ * 3600) with (td_seconds (datetime_sub now lb)) by euclid.
  apply timedelta_new_normal; lia.
Qed.

(** What re-adding a returned breakdown to the origin gives, whatever the
    order of the two datetimes. *)
Lemma reconstruct_calculate now dob a :
  valid_datetime now = true -> valid_datetime dob = true ->
  calculate_detailed_age now dob = Ok a ->
  reconstruct dob a = Ok (with_microsecond now (microsecond dob)).
Proof.
  intros Hnow Hdob Ha.
  destruct (calculate_detailed_age_inv _ _ _ Ha) as (lb & Hlb & Ea).
  unfold reconstruct.
  replace (years a) with (age_years now dob) by (subst a; reflexivity).
  replace (months a) with (age_months now dob) by (subst a; reflexivity).
  rewrite (add_years_months_last_birthday _ _ _ _ Hdob Hlb). cbn [bind].
  rewrite (timedelta_of_age_spec _ _ _ _ Hlb Ha).
  destruct (last_birthday_inv _ _ _ _ Hlb) as (Hv & Hus & _).
  destruct (datetime_sub_whole now lb Hnow Hus) as (Htot & _ & _).
  assert (0 <= microsecond dob <= 999999) as Hd
    by (apply valid_datetime_iff in Hdob; lia).
  apply datetime_add_reaches.
  - apply with_microsecond_valid; assumption.
  - cbn [td_days td_seconds td_microseconds].
    unfold timestamp, toordinal, second_of_day, with_microsecond in *.
    cbn [year month day hour minute second microsecond] in *. lia.
Qed.

(** * The claims *)

(** ** C1: the reconstruction law *)

(** C1: for every pair of instants with origin <= reference for which the
    function returns a breakdown, adding the breakdown back onto the origin
    (years and months by calendar addition, days, hours, minutes and
    seconds as a fixed duration) yields exactly the reference: the value
    re-added has the six components of the reference.  The microseconds of
    a datetime, which an Instant does not have, are the origin's in the
    value re-added, since the function never reads the reference's; so two
    datetimes with the same microseconds, as all on whole seconds are, give
    the reference back as the datetime it is. *)
Theorem reconstruction_law now dob a :
  valid_datetime now = true -> valid_datetime dob = true ->
  datetime_le dob now = true ->
  calculate_detailed_age now dob = Ok a ->
  (exists r, reconstruct dob a = Ok r /\ instant r = instant now /\
             microsecond r = microsecond dob) /\
  (microsecond now = microsecond dob -> reconstruct dob a = Ok now).
Proof.
  intros Hnow Hdob _ Ha.
  pose proof (reconstruct_calculate now dob a Hnow Hdob Ha) as H.
  split.
  - exists (with_microsecond now (microsecond dob)).
    split; [exact H | split; reflexivity].
  - intros E. rewrite H, <- E, with_microsecond_same. reflexivity.
Qed.

Lemma reconstruction_law_witness :
  let now := mkDatetime 2024 3 15 10 0 0 500000 in
  let a := mkAge 24 0 0 0 0 0 in
  calculate_detailed_age now born = Ok a /\
  (exists r, reconstruct born a = Ok r /\ instant r = instant now /\
             microsecond r = microsecond born) /\
  (microsecond now = microsecond born -> reconstruct born a = Ok now).
Proof.
  cbv zeta. split; [reflexivity | ].
  apply (reconstruction_law (mkDatetime 2024 3 15 10 0 0 500000) born
           (mkAge 24 0 0 0 0 0)); reflexivity.
Defined.

(** ** C2: ranges of the six fields *)

(** C2: on the 24th birthday, one hour before the time of birth, the origin
    is not after the reference, the function returns, and the [days] field
    is -1. *)
Theorem days_negative_before_time_of_birth :
  let now := dt 2024 3 15 9 0 0 in
  valid_datetime now = true /\ valid_datetime born = true /\
  datetime_le born now = true /\
  calculate_detailed_age now born = Ok (mkAge 24 0 (-1) 23 0 0).
Proof. cbv zeta. repeat split; reflexivity. Qed.

(** ** C3: the order of the arguments is the caller's concern *)



(** ** C4: scenario 2 *)

(** C4, as stated, fails: the [days] field is 28, not 365. *)
Lemma scenario2_days_not_365 :
  exists a, calculate_detailed_age (dt 2024 3 14 10 0 0) born = Ok a /\
            years a = 23 /\ months a = 11 /\ days a <> 365.
Proof. eexists. repeat split; try reflexivity. cbn. discriminate. Qed.

(** C4 (amended): for origin 2000-03-15 10:00:00 and reference 2024-03-14
    10:00:00 the function returns years = 23, months = 11 and days = 28, the
    number of days from the last monthly anniversary 2024-02-15 to
    2024-03-14; the 365 days from 2023-03-15 to 2024-03-14 are what the 11
    months and 28 days add up to. *)
Theorem scenario2 :
  calculate_detailed_age (dt 2024 3 14 10 0 0) born = Ok (mkAge 23 11 28 0 0 0) /\
  last_birthday born 23 11 = Ok (dt 2024 2 15 10 0 0) /\
  _ymd2ord 2024 3 14 - _ymd2ord 2024 2 15 = 28 /\
  _ymd2ord 2024 3 14 - _ymd2ord 2023 3 15 = 365.
Proof. repeat split; reflexivity. Qed.

(** ** C5: an origin day missing from the anniversary month *)

(** Whenever the origin's day does not exist in the anniversary month, the
    function fails. *)
Lemma missing_day_raises now dob :
  origin_day_missing now dob -> raises (calculate_detailed_age now dob).
Proof.
  unfold origin_day_missing.
  destruct (last_birthday_ym _ _ _) as [y m] eqn:E. intros Hd.
  destruct (calculate_detailed_age now dob) as [a | e] eqn:Ha; [ | exists e; reflexivity].
  exfalso. apply calculate_detailed_age_inv in Ha as (lb & Hlb & _).
  apply last_birthday_inv in Hlb as (Hv & _ & Hym & Hday & _).
  rewrite E in Hym. injection Hym as <- <-.
  apply valid_datetime_iff in Hv. lia.
Qed.

(** C5: there are inputs with origin <= reference on which the origin's day
    of the month does not exist in the month of the last anniversary (born
    on January 31st, asked on March 1st, the anniversary would be February
    31st); the construction of the anniversary date is not guarded, and on
    every such input the function fails instead of returning a breakdown. *)
Theorem day_31_origin_fails :
  (exists now dob,
     valid_datetime now = true /\ valid_datetime dob = true /\
     datetime_le dob now = true /\ origin_day_missing now dob /\
     calculate_detailed_age now dob = Raise (ValueError_range Day)) /\
  (forall now dob,
     origin_day_missing now dob -> raises (calculate_detailed_age now dob)).
Proof.
  split; [ | exact missing_day_raises].
  exists (dt 2000 3 1 0 0 0), (dt 2000 1 31 0 0 0).
  repeat split; reflexivity.
Qed.

(** ** C6: identical instants *)

Lemma age_years_same t : age_years t t = 0.
Proof.
  unfold age_years, pair_lt. cbn [fst snd]. cbv zeta.
  rewrite Z.ltb_irrefl, Z.ltb_irrefl, andb_false_r. cbn [orb]. lia.
Qed.

Lemma age_months_same t : age_months t t = 0.
Proof.
  unfold age_months. cbv zeta.
  rewrite Z.ltb_irrefl, Z.sub_diag. reflexivity.
Qed.

(** C6: for every instant [t], the function applied to [t] and [t] returns
    the all-zero breakdown, without error. *)
Theorem same_instant_zero t :
  valid_datetime t = true ->
  calculate_detailed_age t t = Ok zero_age.
Proof.
  intros Ht. unfold calculate_detailed_age. cbv zeta.
  rewrite age_years_same, age_months_same.
  unfold last_birthday, last_birthday_ym. cbv zeta.
  rewrite !Z.add_0_r.
  assert ((12 <? month t) = false) as ->
    by (apply Z.ltb_ge; apply valid_datetime_iff in Ht; lia).
  rewrite datetime_new_valid
    by (apply (with_microsecond_valid t 0); [assumption | lia]).
  cbn [bind].
  unfold datetime_sub, toordinal, second_of_day.
  cbn [year month day hour minute second microsecond].
  rewrite !Z.sub_diag, Z.sub_0_r.
  rewrite timedelta_new_normal
    by (apply valid_datetime_iff in Ht; lia).
  reflexivity.
Qed.

Lemma same_instant_zero_witness :
  valid_datetime born = true /\ calculate_detailed_age born born = Ok zero_age.
Proof.
  split; [reflexivity | apply (same_instant_zero born); reflexivity].
Defined.

(** ** C7: scenario 3 *)

(** C7: from 1999-02-28 to 2000-03-01, across the leap day 2000-02-29, the
    function returns 1 year, 0 months and 2 days: the anniversary is
    2000-02-28 and the leap day is counted. *)
Theorem scenario3_leap_day :
  calculate_detailed_age (dt 2000 3 1 0 0 0) (dt 1999 2 28 0 0 0)
  = Ok (mkAge 1 0 2 0 0 0) /\
  last_birthday (dt 1999 2 28 0 0 0) 1 0 = Ok (dt 2000 2 28 0 0 0) /\
  _is_leap 2000 = true.
Proof. repeat split; reflexivity. Qed.

(** ** C8: advancing the reference by one second *)

(** C8: the last second of 2024-03-14 and the first of 2024-03-15, for the
    origin 2000-03-15 10:00:00.  The step carries into months and years
    ten hours before the anniversary instant 2024-03-15 10:00:00, and the
    [days] field goes from 28 to -1. *)
Theorem carry_at_midnight_before_anniversary :
  let now := dt 2024 3 14 23 59 59 in
  let now' := dt 2024 3 15 0 0 0 in
  datetime_le born now = true /\
  datetime_add now one_second = Ok now' /\
  calculate_detailed_age now born = Ok (mkAge 23 11 28 13 59 59) /\
  calculate_detailed_age now' born = Ok (mkAge 24 0 (-1) 14 0 0) /\
  last_birthday born 24 0 = Ok (dt 2024 3 15 10 0 0).
Proof. cbv zeta. repeat split; reflexivity. Qed.

(** ** C9: normalised sub-year and sub-day fields *)

(** C9: on every pair of datetimes on which the function returns, also with
    the origin after the reference, [months] lies in 0..11, [hours] in
    0..23, [minutes] and [seconds] in 0..59. *)
Theorem subfields_normalised now dob a :
  valid_datetime now = true -> valid_datetime dob = true ->
  calculate_detailed_age now dob = Ok a ->
  0 <= months a <= 11 /\ 0 <= hours a <= 23 /\
  0 <= minutes a <= 59 /\ 0 <= seconds a <= 59.
Proof.
  intros Hnow Hdob Ha.
  apply calculate_detailed_age_inv in Ha as (lb & _ & ->).
  cbn [months hours minutes seconds].
  pose proof (td_seconds_range now lb) as Hs.
  apply valid_datetime_iff in Hnow, Hdob.
  split; [apply age_months_range; lia | euclid].
Qed.

Lemma subfields_normalised_witness :
  let now := dt 2000 1 1 0 0 0 in
  let dob := dt 2001 6 20 18 30 15 in
  let a := mkAge (-2) 6 11 5 29 45 in
  datetime_gt dob now = true /\
  0 <= months a <= 11 /\ 0 <= hours a <= 23 /\
  0 <= minutes a <= 59 /\ 0 <= seconds a <= 59.
Proof.
  cbv zeta. split; [reflexivity | ].
  apply (subfields_normalised (dt 2000 1 1 0 0 0) (dt 2001 6 20 18 30 15));
    reflexivity.
Defined.

(** ** C10: origins on a day every month has *)

(** With the origin not after the reference, the reference cannot lie in
    January of year 1 on an earlier day of the month than the origin's. *)
Lemma ordered_anniversary_year now dob :
  valid_datetime dob = true -> datetime_le dob now = true ->
  ~ (year now = 1 /\ month now = 1 /\ day now < day dob).
Proof.
  intros Hdob Hle. apply datetime_le_date in Hle.
  apply valid_datetime_iff in Hdob. lia.
Qed.

(** C10, as stated, fails: the anniversary year can be 0, which the
    constructor rejects.  Origin 0001-02-10, reference 0001-01-05. *)
Lemma day_le_28_can_fail :
  let now := dt 1 1 5 0 0 0 in
  let dob := dt 1 2 10 0 0 0 in
  valid_datetime now = true /\ valid_datetime dob = true /\ day dob <= 28 /\
  last_birthday_ym dob (age_years now dob) (age_months now dob) = (0, 12) /\
  calculate_detailed_age now dob = Raise (ValueError_range Year).
Proof. cbv zeta. repeat split; try reflexivity. cbn. discriminate. Qed.

(** C10 (amended): for every pair of datetimes whose origin day of month is
    at most 28, the anniversary month lies in 1..12 and the function returns
    a breakdown, unless the reference lies in January of year 1 on an
    earlier day of the month than the origin's: then, and only then, the
    anniversary falls in year 0 and the function fails.  That exception
    never arises when origin <= reference (lemma
    [ordered_anniversary_year]). *)
Theorem day_le_28_returns now dob :
  valid_datetime now = true -> valid_datetime dob = true ->
  day dob <= 28 ->
  1 <= snd (last_birthday_ym dob (age_years now dob) (age_months now dob)) <= 12 /\
  (returns (calculate_detailed_age now dob) <->
   ~ (year now = 1 /\ month now = 1 /\ day now < day dob)).
Proof.
  intros Hnow Hdob H28.
  apply valid_datetime_iff in Hnow, Hdob.
  unfold calculate_detailed_age, last_birthday. cbv zeta.
  rewrite last_birthday_ym_cases by lia.
  assert (forall y m, 1 <= y <= 9999 -> 1 <= m <= 12 ->
            valid_datetime (mkDatetime y m (day dob) (hour dob) (minute dob)
                              (second dob) 0) = true) as Hv.
  { intros y m Hy Hm. apply valid_datetime_iff.
    cbn [year month day hour minute second microsecond].
    pose proof (days_in_month_ge_28 y m Hm). lia. }
  destruct (Z.ltb_spec (day now) (day dob));
    [destruct (Z.eqb_spec (month now) 1) | ]; cbn [snd];
    (split; [lia | ]).
  - (* January, before the origin's day: the month before is December *)
    destruct (Z.eq_dec (year now) 1) as [E1 | N1].
    + rewrite E1. unfold datetime_new.
      change (between MINYEAR (1 - 1) MAXYEAR) with false. cbn [negb bind].
      split; [intros [a Ha]; discriminate Ha | intros Hn; exfalso; apply Hn; lia].
    + rewrite datetime_new_valid by (apply Hv; lia). cbn [bind].
      split; [lia | eexists; reflexivity].
  - rewrite datetime_new_valid by (apply Hv; lia). cbn [bind].
    split; [lia | eexists; reflexivity].
  - rewrite datetime_new_valid by (apply Hv; lia). cbn [bind].
    split; [lia | eexists; reflexivity].
Qed.

Lemma day_le_28_returns_witness :
  let now := dt 2000 1 1 0 0 0 in
  let dob := dt 2001 6 20 18 30 15 in
  datetime_gt dob now = true /\
  1 <= snd (last_birthday_ym dob (age_years now dob) (age_months now dob)) <= 12 /\
  (returns (calculate_detailed_age now dob) <->
   ~ (year now = 1 /\ month now = 1 /\ day now < day dob)).
Proof.
  cbv zeta. split; [reflexivity | ].
  apply (day_le_28_returns (dt 2000 1 1 0 0 0) (dt 2001 6 20 18 30 15));
    [reflexivity | reflexivity | cbn; lia].
Defined.

(** * Further properties of the code

    What follows goes beyond the claims: more of what
    [calculate_detailed_age] does, and the rest of the age counter
    ([validators.py], [storage.py], [ui.py]). *)

(** ** [calculate_detailed_age]: years and months *)

Lemma whole_months_age now dob :
  1 <= month now <= 12 -> 1 <= month dob <= 12 ->
  12 * age_years now dob + age_months now dob = months_between now dob.
Proof.
  intros Hn Hd.
  pose proof (total_months dob (age_years now dob) (age_months now dob)) as H.
  rewrite last_birthday_ym_cases in H by assumption.
  unfold months_between.
  destruct (day now <? day dob); [destruct (Z.eqb_spec (month now) 1) | ];
    cbv beta iota in H; lia.
Qed.

(** How [months_between] moves with the reference. *)
Lemma months_between_le now1 now2 dob :
  valid_datetime now1 = true -> valid_datetime now2 = true ->
  valid_datetime dob = true ->
  datetime_le now1 now2 = true ->
  months_between now1 dob <= months_between now2 dob.
Proof.
  intros H1 H2 Hd Hle. apply datetime_le_date in Hle.
  apply valid_datetime_iff in H1, H2, Hd.
  unfold months_between.
  destruct (Z.ltb_spec (day now1) (day dob)), (Z.ltb_spec (day now2) (day dob)); lia.
Qed.

Lemma datetime_le_trans a b c :
  datetime_le a b = true -> datetime_le b c = true -> datetime_le a c = true.
Proof.
  rewrite !datetime_le_iff. intros Hab Hbc.
  apply not_true_iff_false. apply not_true_iff_false in Hab, Hbc.
  rewrite datetime_lt_iff in *.
  intros H. 
  destruct (Z.lt_trichotomy (year a) (year b)) as [ | [ | ]];
  destruct (Z.lt_trichotomy (year b) (year c)) as [ | [ | ]]; try lia;
  destruct (Z.lt_trichotomy (month a) (month b)) as [ | [ | ]];
  destruct (Z.lt_trichotomy (month b) (month c)) as [ | [ | ]]; try lia;
  destruct (Z.lt_trichotomy (day a) (day b)) as [ | [ | ]];
  destruct (Z.lt_trichotomy (day b) (day c)) as [ | [ | ]]; try lia;
  destruct (Z.lt_trichotomy (hour a) (hour b)) as [ | [ | ]];
  destruct (Z.lt_trichotomy (hour b) (hour c)) as [ | [ | ]]; try lia;
  destruct (Z.lt_trichotomy (minute a) (minute b)) as [ | [ | ]];
  destruct (Z.lt_trichotomy (minute b) (minute c)) as [ | [ | ]]; try lia;
  destruct (Z.lt_trichotomy (second a) (second b)) as [ | [ | ]];
  destruct (Z.lt_trichotomy (second b) (second c)) as [ | [ | ]]; try lia.
Qed.

(** [field_ranges] on the origin's day of the month, one hour before the
    origin's time of day. *)
Lemma field_ranges_witness :
  let now := dt 2024 3 15 9 0 0 in
  let a := mkAge 24 0 (-1) 23 0 0 in
  0 <= years a /\ 0 <= months a <= 11 /\ 0 <= hours a <= 23 /\
  0 <= minutes a <= 59 /\ 0 <= seconds a <= 59 /\ -1 <= days a /\
  (days a < 0 <->
   day now = day born /\ second_of_day now < second_of_day born).
Proof.
  cbv zeta.
  apply (field_ranges (dt 2024 3 15 9 0 0) born eq_refl eq_refl
           (mkAge 24 0 (-1) 23 0 0)); reflexivity.
Defined.

(** [advance_one_second] within a day. *)
Lemma advance_one_second_witness :
  let a := mkAge 23 11 28 0 0 0 in
  let a' := mkAge 23 11 28 0 0 1 in
  (years a' = years a /\ months a' = months a /\
   remainder a' = remainder a + 1) \/
  (12 * years a' + months a' = 12 * years a + months a + 1 /\
   second_of_day (dt 2024 3 14 10 0 1) = 0 /\
   day (dt 2024 3 14 10 0 1) = day born /\
   remainder a' = - second_of_day born).
Proof.
  cbv zeta.
  apply (advance_one_second (dt 2024 3 14 10 0 0) (dt 2024 3 14 10 0 1) born
           (mkAge 23 11 28 0 0 0) (mkAge 23 11 28 0 0 1)); reflexivity.
Defined.

(** X3: the two borrows together make [years] and [months] the quotient and
    remainder by 12 of the number of whole calendar months between the two
    dates, whatever the order of the two datetimes. *)
Theorem years_months_divmod now dob a :
  valid_datetime now = true -> valid_datetime dob = true ->
  calculate_detailed_age now dob = Ok a ->
  years a = months_between now dob / 12 /\
  months a = months_between now dob mod 12.
Proof.
  intros Hnow Hdob Ha.
  apply calculate_detailed_age_inv in Ha as (lb & _ & ->).
  cbn [years months].
  apply valid_datetime_iff in Hnow, Hdob.
  pose proof (whole_months_age now dob ltac:(lia) ltac:(lia)) as H.
  pose proof (age_months_range now dob ltac:(lia) ltac:(lia)) as Hm.
  rewrite <- H. euclid.
Qed.

Lemma years_months_divmod_witness :
  let now := dt 2000 1 1 0 0 0 in
  let dob := dt 2001 6 20 18 30 15 in
  let a := mkAge (-2) 6 11 5 29 45 in
  months_between now dob = -18 /\
  years a = months_between now dob / 12 /\
  months a = months_between now dob mod 12.
Proof.
  cbv zeta. split; [reflexivity | ].
  apply (years_months_divmod (dt 2000 1 1 0 0 0) (dt 2001 6 20 18 30 15));
    reflexivity.
Defined.

(** X4: the count of whole months, [12 * years + months], never goes
    down when the reference moves forward, by any amount. *)
Theorem whole_months_monotone now1 now2 dob a1 a2 :
  valid_datetime now1 = true -> valid_datetime now2 = true ->
  valid_datetime dob = true ->
  datetime_le now1 now2 = true ->
  calculate_detailed_age now1 dob = Ok a1 ->
  calculate_detailed_age now2 dob = Ok a2 ->
  12 * years a1 + months a1 <= 12 * years a2 + months a2.
Proof.
  intros H1 H2 Hd Hle Ha1 Ha2.
  pose proof (months_between_le now1 now2 dob H1 H2 Hd Hle) as Hm.
  apply calculate_detailed_age_inv in Ha1 as (lb1 & _ & ->).
  apply calculate_detailed_age_inv in Ha2 as (lb2 & _ & ->).
  cbn [years months].
  apply valid_datetime_iff in H1, H2, Hd.
  rewrite !whole_months_age by lia. exact Hm.
Qed.

Lemma whole_months_monotone_witness :
  let a1 := mkAge 23 11 28 0 0 0 in
  let a2 := mkAge 24 0 (-1) 23 0 0 in
  12 * years a1 + months a1 <= 12 * years a2 + months a2.
Proof.
  cbv zeta.
  apply (whole_months_monotone (dt 2024 3 14 10 0 0) (dt 2024 3 15 9 0 0) born
           (mkAge 23 11 28 0 0 0) (mkAge 24 0 (-1) 23 0 0)); reflexivity.
Defined.

(** ** [calculate_detailed_age]: days and the time of day *)

(** X5: [days] is the day-of-month difference, taken through the month
    before the reference's when the origin's day is not reached yet, less
    one when the origin's time of day is not reached yet; it always lies
    between -1 and 30. *)
Theorem days_formula now dob a :
  valid_datetime now = true -> valid_datetime dob = true ->
  calculate_detailed_age now dob = Ok a ->
  days a = day_gap now dob
           - (if second_of_day now <? second_of_day dob then 1 else 0) /\
  -1 <= days a <= 30.
Proof.
  intros Hnow Hdob Ha.
  destruct (calculate_detailed_age_inv _ _ _ Ha) as (lb & Hlb & Ea).
  pose proof (ordinal_gap now dob Hnow Hdob lb Hlb) as Hgap.
  destruct (last_birthday_inv _ _ _ _ Hlb) as (Hv & Hus & Hym & Hday & Hsod).
  destruct (datetime_sub_whole now lb Hnow Hus) as (Htot & Hs & _).
  pose proof (second_of_day_range now Hnow) as Hn.
  pose proof (second_of_day_range dob Hdob) as Hd.
  apply valid_datetime_iff in Hnow, Hdob, Hv.
  rewrite last_birthday_ym_cases in Hym by lia.
  replace (days a) with (td_days (datetime_sub now lb)) by (subst a; reflexivity).
  unfold timestamp in Htot. rewrite Hsod in Htot.
  assert (toordinal now - toordinal lb = day_gap now dob) as Eg.
  { rewrite Hgap. unfold day_gap, previous_month.
    destruct (day now <? day dob); [ | reflexivity].
    destruct (month now =? 1); injection Hym as -> ->; reflexivity. }
  assert (0 <= day_gap now dob <= 30) as Hb.
  { rewrite <- Eg, Hgap.
    pose proof (days_in_month_le_31 (year lb) (month lb) ltac:(lia)).
    destruct (Z.ltb_spec (day now) (day dob)); [lia | ].
    pose proof (days_in_month_le_31 (year now) (month now) ltac:(lia)). lia. }
  rewrite <- Eg in *.
  destruct (Z.ltb_spec (second_of_day now) (second_of_day dob)); lia.
Qed.

Lemma days_formula_witness :
  let now := dt 2024 3 14 9 0 0 in
  let a := mkAge 23 11 27 23 0 0 in
  day_gap now born = 28 /\
  days a = day_gap now born
           - (if second_of_day now <? second_of_day born then 1 else 0) /\
  -1 <= days a <= 30.
Proof.
  cbv zeta. split; [reflexivity | ].
  apply (days_formula (dt 2024 3 14 9 0 0) born (mkAge 23 11 27 23 0 0));
    reflexivity.
Defined.

(** X6: [hours], [minutes] and [seconds] depend on the two times of day
    only: they are the difference of the seconds of the day, taken modulo
    one day, split into hours, minutes and seconds.  The dates play no part
    in them. *)
Theorem time_of_day_fields now dob a :
  valid_datetime now = true ->
  calculate_detailed_age now dob = Ok a ->
  hours a * 3600 + minutes a * 60 + seconds a
    = (second_of_day now - second_of_day dob) mod 86400 /\
  0 <= minutes a <= 59 /\ 0 <= seconds a <= 59.
Proof.
  intros Hnow Ha.
  destruct (calculate_detailed_age_inv _ _ _ Ha) as (lb & Hlb & Ea).
  destruct (last_birthday_inv _ _ _ _ Hlb) as (_ & Hus & _ & _ & Hsod).
  destruct (datetime_sub_whole now lb Hnow Hus) as (Htot & Hs & _).
  unfold timestamp in Htot. rewrite Hsod in Htot.
  subst a. cbn [hours minutes seconds].
  revert Htot Hs.
  generalize (td_seconds (datetime_sub now lb)) (td_days (datetime_sub now lb))
    (toordinal now) (toordinal lb) (second_of_day now) (second_of_day dob).
  intros S D on ol sn sd Htot Hs.
  assert (S = (sn - sd) mod 86400) as <- by euclid.
  euclid.
Qed.

Lemma time_of_day_fields_witness :
  let now := dt 2024 3 15 9 0 0 in
  let a := mkAge 24 0 (-1) 23 0 0 in
  hours a * 3600 + minutes a * 60 + seconds a
    = (second_of_day now - second_of_day born) mod 86400 /\
  0 <= minutes a <= 59 /\ 0 <= seconds a <= 59.
Proof.
  cbv zeta.
  apply (time_of_day_fields (dt 2024 3 15 9 0 0) born (mkAge 24 0 (-1) 23 0 0));
    reflexivity.
Defined.

(** ** [calculate_detailed_age]: when it fails *)

(** X7: the function fails in exactly two ways, both in the construction of
    the anniversary date: with a year error when the anniversary would fall in
    year 0, and otherwise with a day error when the origin's day of the month
    does not exist in the anniversary month.  On every other pair of
    datetimes it returns. *)
Theorem failure_cases now dob :
  valid_datetime now = true -> valid_datetime dob = true ->
  (calculate_detailed_age now dob = Raise (ValueError_range Year)
     <-> anniversary_in_year_0 now dob) /\
  (calculate_detailed_age now dob = Raise (ValueError_range Day)
     <-> ~ anniversary_in_year_0 now dob /\ origin_day_missing now dob) /\
  (returns (calculate_detailed_age now dob)
     <-> ~ anniversary_in_year_0 now dob /\ ~ origin_day_missing now dob).
Proof.
  intros Hnow Hdob.
  apply valid_datetime_iff in Hnow, Hdob.
  unfold anniversary_in_year_0, origin_day_missing, returns.
  unfold calculate_detailed_age, last_birthday. cbv zeta.
  rewrite last_birthday_ym_cases by lia.
  assert (forall y m,
            (y, m) = (if day now <? day dob
                      then if month now =? 1 then (year now - 1, 12)
                           else (year now, month now - 1)
                      else (year now, month now)) ->
            0 <= y <= 9999 /\ 1 <= m <= 12 /\
            (y = 0 <-> year now = 1 /\ month now = 1 /\ day now < day dob)) as Hym.
  { intros y m E.
    destruct (Z.ltb_spec (day now) (day dob));
      [destruct (Z.eqb_spec (month now) 1) | ]; injection E as -> ->; lia. }
  destruct (if day now <? day dob then _ else _) as [y m].
  destruct (Hym y m eq_refl) as (Hy & Hm & Hy0). clear Hym.
  unfold datetime_new, MINYEAR, MAXYEAR.
  destruct (Z.eq_dec y 0) as [E0 | Hny]; [subst y | ].
  - change (between 1 0 9999) with false. cbn [negb bind].
    assert (year now = 1 /\ month now = 1 /\ day now < day dob) as Hc
      by (apply Hy0; reflexivity).
    split; [tauto | ].
    split; (split; [ | tauto]).
    + discriminate.
    + intros [a Ha]; discriminate Ha.
  - assert (between 1 y 9999 = true) as -> by (apply between_iff; lia).
    assert (between 1 m 12 = true) as -> by (apply between_iff; lia).
    cbn [negb].
    destruct (between 1 (day dob) (_days_in_month y m)) eqn:Ed.
    + apply between_iff in Ed.
      assert (between 0 (hour dob) 23 = true) as -> by (apply between_iff; lia).
      assert (between 0 (minute dob) 59 = true) as -> by (apply between_iff; lia).
      assert (between 0 (second dob) 59 = true) as -> by (apply between_iff; lia).
      change (between 0 0 999999) with true. cbn [negb bind].
      assert (~ (year now = 1 /\ month now = 1 /\ day now < day dob)) as Hc
        by (intros Hc; apply Hy0 in Hc; lia).
      split; [split; [discriminate | tauto] | ].
      split; [split; [discriminate | intros [_ H]; lia] | ].
      split; [intros _; split; [exact Hc | lia] | intros _; eexists; reflexivity].
    + assert (_days_in_month y m < day dob) as Hmiss.
      { destruct (Z.lt_ge_cases (_days_in_month y m) (day dob)); [assumption | ].
        exfalso. apply not_true_iff_false in Ed. apply Ed, between_iff. lia. }
      cbn [negb bind].
      assert (~ (year now = 1 /\ month now = 1 /\ day now < day dob)) as Hc
        by (intros Hc; apply Hy0 in Hc; lia).
      split; [split; [discriminate | tauto] | ].
      split; [tauto | ].
      split; [intros [a Ha]; discriminate Ha | tauto].
Qed.

Lemma failure_cases_witness :
  let now := dt 2000 3 1 0 0 0 in
  let dob := dt 2000 1 31 0 0 0 in
  (calculate_detailed_age now dob = Raise (ValueError_range Year)
     <-> anniversary_in_year_0 now dob) /\
  (calculate_detailed_age now dob = Raise (ValueError_range Day)
     <-> ~ anniversary_in_year_0 now dob /\ origin_day_missing now dob) /\
  (returns (calculate_detailed_age now dob)
     <-> ~ anniversary_in_year_0 now dob /\ ~ origin_day_missing now dob).
Proof.
  cbv zeta.
  apply (failure_cases (dt 2000 3 1 0 0 0) (dt 2000 1 31 0 0 0)); reflexivity.
Defined.

(** ** [calculate_detailed_age]: sub-second parts *)

(** X8: the result never depends on the sub-second part of either argument:
    the origin's is never read, and the reference's cannot carry into the
    seconds because the anniversary sits on a whole second. *)
Theorem microseconds_ignored now dob u v :
  valid_datetime now = true -> 0 <= u <= 999999 ->
  calculate_detailed_age (with_microsecond now u) (with_microsecond dob v)
  = calculate_detailed_age now dob.
Proof.
  intros Hnow Hu. apply valid_datetime_iff in Hnow.
  unfold calculate_detailed_age, last_birthday, last_birthday_ym,
    age_years, age_months, with_microsecond. cbv zeta.
  cbn [year month day hour minute second microsecond].
  destruct (if 12 <? _ then _ else _) as [ly lm].
  destruct (datetime_new ly lm (day dob) (hour dob) (minute dob) (second dob) 0)
    as [lb | e] eqn:E; cbn [bind]; [ | reflexivity].
  apply datetime_new_inv in E as [-> _].
  unfold datetime_sub, toordinal, second_of_day, timedelta_new. cbv zeta.
  cbn [year month day hour minute second microsecond td_days td_seconds].
  rewrite !Z.sub_0_r.
  rewrite (Z.div_small u), (Z.div_small (microsecond now)) by lia.
  reflexivity.
Qed.

Lemma microseconds_ignored_witness :
  let now := dt 2024 3 14 10 0 0 in
  calculate_detailed_age (with_microsecond now 999999) (with_microsecond born 123456)
  = calculate_detailed_age now born.
Proof.
  cbv zeta.
  apply (microseconds_ignored (dt 2024 3 14 10 0 0) born 999999 123456);
    [reflexivity | lia].
Defined.

(** X9: for a fixed origin, the breakdown determines the reference up to its
    sub-second part: references in two different seconds never get the same
    breakdown. *)
Theorem breakdown_determines_reference now1 now2 dob a :
  valid_datetime now1 = true -> valid_datetime now2 = true ->
  valid_datetime dob = true ->
  calculate_detailed_age now1 dob = Ok a ->
  calculate_detailed_age now2 dob = Ok a ->
  with_microsecond now1 0 = with_microsecond now2 0.
Proof.
  intros H1 H2 Hd Ha1 Ha2.
  pose proof (reconstruct_calculate now1 dob a H1 Hd Ha1) as R1.
  pose proof (reconstruct_calculate now2 dob a H2 Hd Ha2) as R2.
  rewrite R1 in R2. injection R2 as E.
  unfold with_microsecond in *. congruence.
Qed.

Lemma breakdown_determines_reference_witness :
  let now1 := mkDatetime 2024 3 14 10 0 0 250000 in
  let now2 := mkDatetime 2024 3 14 10 0 0 750000 in
  with_microsecond now1 0 = with_microsecond now2 0.
Proof.
  cbv zeta.
  apply (breakdown_determines_reference
           (mkDatetime 2024 3 14 10 0 0 250000)
           (mkDatetime 2024 3 14 10 0 0 750000) born (mkAge 23 11 28 0 0 0));
    reflexivity.
Defined.

(** ** [parse_dob]: tactics and the Latin-1 classification *)

(** Decide the character tests of the matcher on digit characters. *)
Ltac chars :=
  unfold c0, c1, c2, c3, c5, c6, c9, hyphen, colon, space, digit in *;
  repeat first
    [ match goal with
      | |- context [(?a =? ?b)%N] => destruct (N.eqb_spec a b); try (exfalso; lia)
      | |- context [(?a <=? ?b)%N] => destruct (N.leb_spec a b); try (exfalso; lia)
      end
    | progress cbn [andb orb negb] ].

(** The two digits of a number below 100. *)
Ltac split_digits n :=
  let q := fresh "q" in
  let r := fresh "r" in
  let Hq := fresh "Hq" in
  let E := fresh "E" in
  assert (0 <= n / 10 <= 9 /\ 0 <= n mod 10 <= 9) as Hq by euclid;
  assert (n = 10 * (n / 10) + n mod 10) as E by euclid;
  revert Hq E; generalize (n / 10) (n mod 10); intros q r Hq E.

(** The classification of Latin-1 has the properties asked of the
    database. *)
#[refine] Instance latin1 : Unicode := {|
  decimal := latin1_decimal;
  isspace := latin1_isspace
|}.
Proof.
  - unfold latin1_decimal. intros c v.
    destruct (N.leb_spec 48 c), (N.leb_spec c 57); cbn [andb];
      intros [= <-]; lia.
  - unfold latin1_decimal. intros c [H1 H2].
    apply N.leb_le in H1, H2. rewrite H1, H2. reflexivity.
  - unfold latin1_decimal. intros c v _.
    destruct (N.leb_spec 48 c), (N.leb_spec c 57); cbn [andb];
      try discriminate. lia.
  - reflexivity.
  - unfold latin1_decimal, latin1_isspace. intros c v.
    destruct (N.leb_spec 48 c), (N.leb_spec c 57); cbn [andb];
      try discriminate.
    intros _.
    destruct (N.leb_spec 9 c), (N.leb_spec c 13), (N.leb_spec 28 c),
      (N.leb_spec c 32), (N.eqb_spec c 133), (N.eqb_spec c 160);
      cbn [andb orb]; try reflexivity; lia.
Defined.

(** ** [parse_dob]: the texts it accepts *)

Section ParsingProofs.

Context {U : Unicode}.

Lemma decimal_digit v : 0 <= v <= 9 -> decimal (digit v) = Some v.
Proof.
  intros Hv. unfold digit. rewrite decimal_ascii by lia. f_equal. lia.
Qed.

Lemma isspace_digit v : 0 <= v <= 9 -> isspace (digit v) = false.
Proof. intros Hv. apply (decimal_not_space _ v), decimal_digit, Hv. Qed.

Lemma consumed_app p rest : consumed (p ++ rest) rest = p.
Proof.
  unfold consumed. rewrite length_app.
  replace (List.length p + List.length rest - List.length rest)%nat
    with (List.length p + 0)%nat by lia.
  rewrite firstn_app_2. cbn. apply app_nil_r.
Qed.

Lemma consumed2 a b rest : consumed (a :: b :: rest) rest = [a; b].
Proof. apply (consumed_app [a; b]). Qed.

Lemma consumed4 a b c d rest : consumed (a :: b :: c :: d :: rest) rest = [a; b; c; d].
Proof. apply (consumed_app [a; b; c; d]). Qed.

Section Fields.

Variable A : Type.
Variables (rest : text) (caps : captures) (k : text -> captures -> option A).
Variable x : A.

Lemma match_Y y :
  0 <= y <= 9999 ->
  rmatch A re_Y (pad4 y ++ rest) caps k = k rest (capture gY (pad4 y) caps).
Proof.
  intros Hy. unfold re_Y, pad4. cbn [rmatch app].
  rewrite !decimal_digit by euclid. rewrite consumed4. reflexivity.
Qed.

Lemma match_m m :
  1 <= m <= 12 ->
  k rest (capture gm (pad2 m) caps) = Some x ->
  rmatch A re_m (pad2 m ++ rest) caps k = Some x.
Proof.
  intros Hm Hk. unfold re_m, pad2 in *. cbn [rmatch app].
  rewrite consumed2, Hk.
  assert (0 <= m / 10 <= 1 /\ 0 <= m mod 10 <= 9) as Hq by euclid.
  assert (m = 10 * (m / 10) + m mod 10) as E by euclid.
  revert Hq E. generalize (m / 10) (m mod 10). intros q r Hq E.
  chars; reflexivity.
Qed.

Lemma match_d d :
  1 <= d <= 31 ->
  k rest (capture gd (pad2 d) caps) = Some x ->
  rmatch A re_d (pad2 d ++ rest) caps k = Some x.
Proof.
  intros Hd Hk. unfold re_d, pad2 in *. cbn [rmatch app].
  rewrite consumed2, Hk. split_digits d.
  rewrite !decimal_digit by lia. chars; reflexivity.
Qed.

Lemma match_H h :
  0 <= h <= 23 ->
  k rest (capture gH (pad2 h) caps) = Some x ->
  rmatch A re_H (pad2 h ++ rest) caps k = Some x.
Proof.
  intros Hh Hk. unfold re_H, pad2 in *. cbn [rmatch app].
  rewrite consumed2, Hk. split_digits h.
  rewrite !decimal_digit by lia. chars; reflexivity.
Qed.

Lemma match_M mi :
  0 <= mi <= 59 ->
  k rest (capture gM (pad2 mi) caps) = Some x ->
  rmatch A re_M (pad2 mi ++ rest) caps k = Some x.
Proof.
  intros Hmi Hk. unfold re_M, pad2 in *. cbn [rmatch app].
  rewrite consumed2, Hk. split_digits mi.
  rewrite !decimal_digit by lia. chars; reflexivity.
Qed.

Lemma match_S s :
  0 <= s <= 59 ->
  k rest (capture gS (pad2 s) caps) = Some x ->
  rmatch A re_S (pad2 s ++ rest) caps k = Some x.
Proof.
  intros Hs Hk. unfold re_S, pad2 in *. cbn [rmatch app].
  rewrite consumed2, Hk. split_digits s.
  rewrite !decimal_digit by lia. chars; reflexivity.
Qed.

Lemma match_Lit c :
  rmatch A (Lit c) (c :: rest) caps k = k rest caps.
Proof. cbn [rmatch]. rewrite N.eqb_refl. reflexivity. Qed.

(** One blank before a digit: [\s+] takes the blank and stops. *)
Lemma match_Spaces v :
  0 <= v <= 9 ->
  rmatch A Spaces (space :: digit v :: rest) caps k = k (digit v :: rest) caps.
Proof.
  intros Hv. cbn [rmatch spaces_then].
  change space with 32%N. rewrite isspace_space, isspace_digit by lia.
  reflexivity.
Qed.

End Fields.

(** *** [int] of the groups *)

Lemma lstrip_nonspace c t : isspace c = false -> lstrip (c :: t) = c :: t.
Proof. intros H. cbn [lstrip]. rewrite H. reflexivity. Qed.

Lemma rstrip_nonspace t c : isspace c = false -> rstrip (t ++ [c]) = t ++ [c].
Proof.
  intros H. unfold rstrip. rewrite rev_app_distr. cbn [rev app].
  rewrite lstrip_nonspace by assumption.
  change (c :: rev t) with ([c] ++ rev t).
  rewrite rev_app_distr, rev_involutive. reflexivity.
Qed.

Lemma py_int_pad2 n : 0 <= n <= 99 -> py_int (pad2 n) = Some n.
Proof.
  intros Hn. unfold py_int, strip, pad2.
  rewrite lstrip_nonspace by (apply isspace_digit; euclid).
  change [digit (n / 10); digit (n mod 10)] with ([digit (n / 10)] ++ [digit (n mod 10)]).
  rewrite rstrip_nonspace by (apply isspace_digit; euclid).
  cbn [app digits_value]. rewrite !decimal_digit by euclid.
  f_equal. euclid.
Qed.

Lemma py_int_pad4 n : 0 <= n <= 9999 -> py_int (pad4 n) = Some n.
Proof.
  intros Hn. unfold py_int, strip, pad4.
  rewrite lstrip_nonspace by (apply isspace_digit; euclid).
  change [digit (n / 1000); digit (n / 100 mod 10); digit (n / 10 mod 10); digit (n mod 10)]
    with ([digit (n / 1000); digit (n / 100 mod 10); digit (n / 10 mod 10)] ++ [digit (n mod 10)]).
  rewrite rstrip_nonspace by (apply isspace_digit; euclid).
  cbn [app digits_value]. rewrite !decimal_digit by euclid.
  f_equal. euclid.
Qed.

Lemma match_Spaces_pad2 A n rest caps (k : text -> captures -> option A) :
  0 <= n <= 99 ->
  rmatch A Spaces (space :: pad2 n ++ rest) caps k = k (pad2 n ++ rest) caps.
Proof. intros Hn. unfold pad2. cbn [app]. apply match_Spaces. euclid. Qed.

Lemma rmatch_Seq A r1 r2 s caps (k : text -> captures -> option A) :
  rmatch A (r1 ;; r2) s caps k
  = rmatch A r1 s caps (fun s' caps' => rmatch A r2 s' caps' k).
Proof. reflexivity. Qed.

Lemma match_datetime_str t :
  valid_datetime t = true ->
  rmatch _ format_regex (datetime_str t) no_captures
    (fun rest caps => Some (rest, caps))
  = Some (fraction_str t, found_in t).
Proof.
  intros Hv. apply valid_datetime_iff in Hv.
  destruct Hv as (Hy & Hm & Hd & Hh & Hmi & Hs & _).
  pose proof (days_in_month_le_31 (year t) (month t) Hm) as Hd31.
  unfold format_regex, datetime_str. cbn [app].
  rewrite rmatch_Seq, match_Y by lia.
  rewrite rmatch_Seq, match_Lit.
  rewrite rmatch_Seq. apply match_m; [lia | ].
  rewrite rmatch_Seq, match_Lit.
  rewrite rmatch_Seq. apply match_d; [lia | ].
  rewrite rmatch_Seq, match_Spaces_pad2 by lia.
  rewrite rmatch_Seq. apply match_H; [lia | ].
  rewrite rmatch_Seq, match_Lit.
  rewrite rmatch_Seq. apply match_M; [lia | ].
  rewrite rmatch_Seq, match_Lit.
  apply match_S; [lia | ]. reflexivity.
Qed.

(** The text of a datetime starts and ends with a digit. *)
Lemma strip_datetime_str t :
  valid_datetime t = true ->
  strip (datetime_str t) = datetime_str t.
Proof.
  intros Hv. apply valid_datetime_iff in Hv.
  unfold strip, datetime_str, fraction_str.
  unfold pad4 at 1. cbn [app].
  rewrite lstrip_nonspace by (apply isspace_digit; euclid).
  destruct (microsecond t =? 0).
  - unfold pad2 at 5. rewrite app_nil_r.
    match goal with
    | |- rstrip ?l = _ =>
        match l with
        | context C [[?a; ?b]] =>
            let l' := context C [[a] ++ [b]] in
            change l with l'
        end
    end.
    repeat rewrite ?app_comm_cons, ?app_assoc.
    apply rstrip_nonspace, isspace_digit. euclid.
  - unfold pad6.
    match goal with
    | |- rstrip ?l = _ =>
        match l with
        | context C [[?a1; ?a2; ?a3; ?a4; ?a5; ?a6]] =>
            let l' := context C [[a1; a2; a3; a4; a5] ++ [a6]] in
            change l with l'
        end
    end.
    repeat rewrite ?app_comm_cons, ?app_assoc.
    apply rstrip_nonspace, isspace_digit. euclid.
Qed.

(** X10: the text that [str] gives for a datetime on a whole second, which is
    the format the entry asks for, is always accepted and read back as that
    datetime. *)
Theorem parse_dob_str t :
  valid_datetime t = true -> microsecond t = 0 ->
  parse_dob (datetime_str t) = Ok t.
Proof.
  intros Hv Hus. unfold parse_dob, strptime.
  rewrite strip_datetime_str, match_datetime_str by assumption.
  unfold fraction_str. rewrite Hus. cbn [Z.eqb].
  pose proof Hv as Hr. apply valid_datetime_iff in Hr.
  destruct Hr as (Hy & Hm & Hd & Hh & Hmi & Hs & _).
  pose proof (days_in_month_le_31 (year t) (month t) Hm) as Hd31.
  unfold found_in. cbn [capture group_eqb].
  rewrite py_int_pad4, !py_int_pad2 by lia.
  rewrite datetime_new_valid; destruct t; cbn in Hus; subst; [reflexivity | exact Hv].
Qed.

(** *** Fields without their leading zero *)

Lemma decimal_hyphen : decimal hyphen = None.
Proof.
  destruct (decimal hyphen) as [v | ] eqn:E; [ | reflexivity].
  apply decimal_below_128 in E; unfold hyphen in *; lia.
Qed.

Lemma decimal_colon : decimal colon = None.
Proof.
  destruct (decimal colon) as [v | ] eqn:E; [ | reflexivity].
  apply decimal_below_128 in E; unfold colon in *; lia.
Qed.

Lemma decimal_space : decimal space = None.
Proof.
  destruct (decimal space) as [v | ] eqn:E; [ | reflexivity].
  apply decimal_below_128 in E; unfold space in *; lia.
Qed.

Section ShortFields.

Variable A : Type.
Variables (rest : text) (caps : captures) (k : text -> captures -> option A).
Variable x : A.

Lemma consumed1 a l : consumed (a :: l) l = [a].
Proof. apply (consumed_app [a]). Qed.

Lemma match_m_short m :
  1 <= m <= 9 ->
  k (hyphen :: rest) (capture gm [digit m] caps) = Some x ->
  rmatch A re_m (digit m :: hyphen :: rest) caps k = Some x.
Proof.
  intros Hm Hk. unfold re_m. cbn [rmatch].
  rewrite consumed1, Hk. chars; try reflexivity.
Qed.

Lemma match_d_short d :
  1 <= d <= 9 ->
  k (space :: rest) (capture gd [digit d] caps) = Some x ->
  rmatch A re_d (digit d :: space :: rest) caps k = Some x.
Proof.
  intros Hd Hk. unfold re_d. cbn [rmatch].
  rewrite consumed1, Hk, decimal_space. chars; try reflexivity.
Qed.

Lemma match_H_short h :
  0 <= h <= 9 ->
  k (colon :: rest) (capture gH [digit h] caps) = Some x ->
  rmatch A re_H (digit h :: colon :: rest) caps k = Some x.
Proof.
  intros Hh Hk. unfold re_H. cbn [rmatch].
  rewrite consumed1, Hk, decimal_colon, decimal_digit by lia. chars; try reflexivity.
Qed.

Lemma match_M_short mi :
  0 <= mi <= 9 ->
  k (colon :: rest) (capture gM [digit mi] caps) = Some x ->
  rmatch A re_M (digit mi :: colon :: rest) caps k = Some x.
Proof.
  intros Hh Hk. unfold re_M. cbn [rmatch].
  rewrite consumed1, Hk, decimal_colon, decimal_digit by lia. chars; try reflexivity.
Qed.

Lemma match_S_short s :
  0 <= s <= 9 ->
  k [] (capture gS [digit s] caps) = Some x ->
  rmatch A re_S [digit s] caps k = Some x.
Proof.
  intros Hh Hk. unfold re_S. cbn [rmatch].
  rewrite consumed1, Hk. rewrite ?decimal_digit by lia. chars; try reflexivity.
Qed.

End ShortFields.

Lemma strip_keep t :
  match t with c :: _ => isspace c = false | [] => True end ->
  match rev t with c :: _ => isspace c = false | [] => True end ->
  strip t = t.
Proof.
  intros H1 H2. unfold strip, rstrip.
  assert (lstrip t = t) as -> by (destruct t; [reflexivity | apply lstrip_nonspace, H1]).
  assert (lstrip (rev t) = rev t) as ->
    by (destruct (rev t); [reflexivity | apply lstrip_nonspace, H2]).
  apply rev_involutive.
Qed.

Lemma py_int_digit n : 0 <= n <= 9 -> py_int [digit n] = Some n.
Proof.
  intros Hn. unfold py_int, strip.
  rewrite lstrip_nonspace by (apply isspace_digit; lia).
  change [digit n] with ([] ++ [digit n]).
  rewrite rstrip_nonspace by (apply isspace_digit; lia).
  cbn [app digits_value]. rewrite decimal_digit by lia. f_equal; lia.
Qed.

Lemma py_int_short2 n : 0 <= n <= 99 -> py_int (short2 n) = Some n.
Proof.
  intros Hn. unfold short2. destruct (Z.ltb_spec n 10).
  - apply py_int_digit. lia.
  - apply py_int_pad2. lia.
Qed.

Lemma match_Spaces_short2 A n rest caps (k : text -> captures -> option A) :
  0 <= n <= 99 ->
  rmatch A Spaces (space :: short2 n ++ rest) caps k = k (short2 n ++ rest) caps.
Proof.
  intros Hn. unfold short2. destruct (Z.ltb_spec n 10).
  - cbn [app]. apply match_Spaces. lia.
  - apply match_Spaces_pad2. lia.
Qed.

Lemma match_datetime_short t :
  valid_datetime t = true ->
  rmatch _ format_regex (datetime_short t) no_captures
    (fun rest caps => Some (rest, caps))
  = Some ([], found_short t).
Proof.
  intros Hv. apply valid_datetime_iff in Hv.
  destruct Hv as (Hy & Hm & Hd & Hh & Hmi & Hs & _).
  pose proof (days_in_month_le_31 (year t) (month t) Hm) as Hd31.
  unfold format_regex, datetime_short, found_short. cbn [app].
  rewrite rmatch_Seq, match_Y by lia.
  rewrite rmatch_Seq, match_Lit.
  unfold short2.
  destruct (Z.ltb_spec (month t) 10), (Z.ltb_spec (day t) 10),
    (Z.ltb_spec (hour t) 10), (Z.ltb_spec (minute t) 10),
    (Z.ltb_spec (second t) 10); cbn [app].
  all: rewrite rmatch_Seq;
    first [apply match_m_short; [lia | ] | apply match_m; [lia | ]].
  all: rewrite rmatch_Seq, match_Lit; rewrite rmatch_Seq;
    first [apply match_d_short; [lia | ] | apply match_d; [lia | ]].
  all: rewrite rmatch_Seq;
    first [rewrite match_Spaces by lia | rewrite match_Spaces_pad2 by lia].
  all: rewrite rmatch_Seq;
    first [apply match_H_short; [lia | ] | apply match_H; [lia | ]].
  all: rewrite rmatch_Seq, match_Lit; rewrite rmatch_Seq;
    first [apply match_M_short; [lia | ] | apply match_M; [lia | ]].
  all: rewrite rmatch_Seq, match_Lit;
    first [apply match_S_short; [lia | reflexivity]
          | rewrite <- (app_nil_r (pad2 (second t))) at 1;
            apply match_S; [lia | reflexivity] ].
Qed.

(** X11: apart from the year, which needs its four digits, every field may
    be written without its leading zero: the short text of a datetime on a
    whole second is read back as that datetime too. *)
Theorem parse_dob_short t :
  valid_datetime t = true -> microsecond t = 0 ->
  parse_dob (datetime_short t) = Ok t.
Proof.
  intros Hv Hus. unfold parse_dob, strptime.
  assert (strip (datetime_short t) = datetime_short t) as ->.
  { pose proof Hv as Hr. apply valid_datetime_iff in Hr.
    apply strip_keep.
    - unfold datetime_short, pad4. cbn [app]. apply isspace_digit. euclid.
    - unfold datetime_short. rewrite !rev_app_distr.
      unfold short2 at 1. destruct (Z.ltb_spec (second t) 10).
      + cbn [rev app]. apply isspace_digit. lia.
      + unfold pad2 at 1. cbn [rev app]. apply isspace_digit. euclid. }
  rewrite match_datetime_short by assumption.
  pose proof Hv as Hr. apply valid_datetime_iff in Hr.
  destruct Hr as (Hy & Hm & Hd & Hh & Hmi & Hs & _).
  pose proof (days_in_month_le_31 (year t) (month t) Hm) as Hd31.
  unfold found_short. cbn [capture group_eqb].
  rewrite py_int_pad4, !py_int_short2 by lia.
  rewrite datetime_new_valid; destruct t; cbn in Hus; subst; [reflexivity | exact Hv].
Qed.

(** *** Whitespace around the text *)

Lemma lstrip_blank_app ws t : blank ws -> lstrip (ws ++ t) = lstrip t.
Proof.
  induction 1 as [ | c ws Hc _ IH]; [reflexivity | ].
  cbn [app lstrip]. rewrite Hc. exact IH.
Qed.

Lemma lstrip_app_blank t ws :
  blank ws -> lstrip (t ++ ws) = match lstrip t with [] => [] | l => l ++ ws end.
Proof.
  intros Hws. induction t as [ | c t IH].
  - cbn [app lstrip]. rewrite <- (app_nil_r ws).
    rewrite lstrip_blank_app by assumption. reflexivity.
  - cbn [app lstrip]. destruct (isspace c); [exact IH | reflexivity].
Qed.

Lemma blank_rev ws : blank ws -> blank (rev ws).
Proof. unfold blank. apply Forall_rev. Qed.

Lemma rstrip_app_blank t ws : blank ws -> rstrip (t ++ ws) = rstrip t.
Proof.
  intros Hws. unfold rstrip. rewrite rev_app_distr.
  rewrite lstrip_blank_app by (apply blank_rev, Hws). reflexivity.
Qed.

Lemma strip_blank_around ws1 t ws2 :
  blank ws1 -> blank ws2 -> strip (ws1 ++ t ++ ws2) = strip t.
Proof.
  intros H1 H2. unfold strip.
  rewrite lstrip_blank_app by assumption.
  rewrite lstrip_app_blank by assumption.
  destruct (lstrip t) as [ | c l]; [reflexivity | ].
  apply rstrip_app_blank, H2.
Qed.

(** X12: whitespace before and after the text makes no difference to what
    [parse_dob] returns. *)
Theorem parse_dob_ignores_blanks ws1 t ws2 :
  blank ws1 -> blank ws2 ->
  parse_dob (ws1 ++ t ++ ws2) = parse_dob t.
Proof.
  intros H1 H2. unfold parse_dob. rewrite strip_blank_around by assumption.
  reflexivity.
Qed.

(** ** [parse_dob]: what it rejects, and what it returns *)

Section MatcherProofs.

Variable A : Type.

Lemma spaces_then_inv s (k : text -> option A) x :
  spaces_then _ s k = Some x -> exists s', k s' = Some x.
Proof.
  revert k x. induction s as [ | c s IH]; intros k x; cbn [spaces_then];
    [discriminate | ].
  destruct (isspace c); [ | discriminate].
  destruct (spaces_then _ s k) eqn:E.
  - intros [= <-]. exact (IH _ _ E).
  - intros H. eauto.
Qed.

(** A successful match went through the continuation, and only the groups
    of the expression were captured on the way. *)
Lemma rmatch_inv r : forall s caps (k : text -> captures -> option A) x,
  rmatch _ r s caps k = Some x ->
  exists s' caps',
    k s' caps' = Some x /\
    forall g, ~ In g (groups_of r) -> caps' g = caps g.
Proof.
  induction r as [c | | lo hi | | r1 IH1 r2 IH2 | r1 IH1 r2 IH2 | g r IH];
    intros s caps k x; cbn [rmatch groups_of].
  - destruct s as [ | c' s]; [discriminate | ].
    destruct (c' =? c)%N; [ | discriminate]. eauto.
  - destruct s as [ | c' s]; [discriminate | ].
    destruct (decimal c'); [ | discriminate]. eauto.
  - destruct s as [ | c' s]; [discriminate | ].
    destruct ((lo <=? c') && (c' <=? hi))%N; [ | discriminate]. eauto.
  - intros H. apply spaces_then_inv in H as [s' H]. eauto.
  - intros H. apply IH1 in H as (s1 & caps1 & H & Hc1).
    apply IH2 in H as (s2 & caps2 & H & Hc2).
    exists s2, caps2. split; [exact H | ].
    intros g' Hg. rewrite in_app_iff in Hg. rewrite Hc2, Hc1; tauto.
  - destruct (rmatch _ r1 s caps k) eqn:E.
    + intros [= <-]. apply IH1 in E as (s1 & caps1 & H & Hc1).
      exists s1, caps1. split; [exact H | ].
      intros g' Hg. rewrite in_app_iff in Hg. apply Hc1. tauto.
    + intros H. apply IH2 in H as (s2 & caps2 & H & Hc2).
      exists s2, caps2. split; [exact H | ].
      intros g' Hg. rewrite in_app_iff in Hg. apply Hc2. tauto.
  - intros H. apply IH in H as (s1 & caps1 & H & Hc1).
    eexists _, _. split; [exact H | ].
    intros g' Hg. cbn [In] in Hg. unfold capture.
    destruct (group_eqb g g') eqn:E.
    + exfalso. apply Hg. left. destruct g, g'; try discriminate; reflexivity.
    + apply Hc1. tauto.
Qed.

End MatcherProofs.

(** X13: whatever [parse_dob] accepts starts, once stripped, with exactly
    four decimal digits and a hyphen, and these four digits are the year: a
    year written with fewer or more digits is rejected. *)
Theorem parse_dob_year_digits t d :
  parse_dob t = Ok d ->
  exists a b c e rest va vb vc ve,
    strip t = a :: b :: c :: e :: hyphen :: rest /\
    decimal a = Some va /\ decimal b = Some vb /\
    decimal c = Some vc /\ decimal e = Some ve /\
    year d = 1000 * va + 100 * vb + 10 * vc + ve.
Proof.
  unfold parse_dob, strptime.
  destruct (rmatch _ format_regex (strip t) no_captures _)
    as [[[ | ? ?] found] | ] eqn:E; try discriminate.
  unfold format_regex in E.
  remember (re_m ;; Lit hyphen ;; re_d ;; Spaces ;; re_H ;; Lit colon ;;
            re_M ;; Lit colon ;; re_S) as tail eqn:Etail.
  unfold re_Y in E. cbn [rmatch] in E. revert E.
  destruct (strip t) as [ | a s]; [discriminate | ].
  destruct (decimal a) as [va | ] eqn:Ea; [ | discriminate].
  destruct s as [ | b s]; [discriminate | ].
  destruct (decimal b) as [vb | ] eqn:Eb; [ | discriminate].
  destruct s as [ | c s]; [discriminate | ].
  destruct (decimal c) as [vc | ] eqn:Ec; [ | discriminate].
  destruct s as [ | e s]; [discriminate | ].
  destruct (decimal e) as [ve | ] eqn:Ee; [ | discriminate].
  rewrite consumed4.
  destruct s as [ | h rest]; [discriminate | ].
  destruct (N.eqb_spec h hyphen) as [-> | ]; [ | discriminate].
  intros E.
  apply rmatch_inv in E as (s' & caps' & E & Hcaps).
  injection E as -> ->.
  rewrite (Hcaps gY)
    by (subst tail; cbn; intros H; repeat destruct H as [H | H];
        try discriminate H; exact H).
  unfold capture at 1. cbn [group_eqb].
  assert (py_int [a; b; c; e] = Some (1000 * va + 100 * vb + 10 * vc + ve)) as Hint.
  { unfold py_int, strip.
    rewrite lstrip_nonspace by (eapply decimal_not_space; eassumption).
    change [a; b; c; e] with ([a; b; c] ++ [e]).
    rewrite rstrip_nonspace by (eapply decimal_not_space; eassumption).
    cbn [app digits_value]. rewrite Ea, Eb, Ec, Ee. f_equal. lia. }
  rewrite Hint.
  destruct (py_int (found gm)), (py_int (found gd)), (py_int (found gH)),
    (py_int (found gM)), (py_int (found gS)); try discriminate.
  destruct (datetime_new _ _ _ _ _ _ _) as [t' | ] eqn:En; [ | discriminate].
  intros [= <-]. apply datetime_new_inv in En as [-> _].
  exists a, b, c, e, rest, va, vb, vc, ve. cbn [year]. auto 10.
Qed.

(** X14: the text that [str] gives for a datetime with a sub-second part is
    rejected: the fraction is left over after the match. *)
Theorem parse_dob_str_fraction t :
  valid_datetime t = true -> microsecond t <> 0 ->
  parse_dob (datetime_str t) = Raise (ValueError_msg invalid_format_message).
Proof.
  intros Hv Hus. unfold parse_dob, strptime.
  rewrite strip_datetime_str, match_datetime_str by assumption.
  unfold fraction_str.
  destruct (Z.eqb_spec (microsecond t) 0); [contradiction | reflexivity].
Qed.

(** What [strptime] returns has been through the constructor, which got
    no fraction. *)
Lemma strptime_whole_second data t :
  strptime data = Some t -> valid_datetime t = true /\ microsecond t = 0.
Proof.
  unfold strptime.
  destruct (rmatch _ format_regex data no_captures _)
    as [[[ | ? ?] found] | ]; try discriminate.
  destruct (py_int (found gY)), (py_int (found gm)), (py_int (found gd)),
    (py_int (found gH)), (py_int (found gM)), (py_int (found gS));
    try discriminate.
  destruct (datetime_new _ _ _ _ _ _ _) as [t' | ] eqn:En; [ | discriminate].
  intros [= <-]. apply datetime_new_inv in En as [E Hv].
  split; [exact Hv | rewrite E; reflexivity].
Qed.

(** X15: whatever [parse_dob] returns is a well-formed datetime on a whole
    second: the fields have been through the constructor, and the format
    has no directive for the fraction. *)
Theorem parse_dob_whole_second t d :
  parse_dob t = Ok d -> valid_datetime d = true /\ microsecond d = 0.
Proof.
  unfold parse_dob.
  destruct (strptime (strip t)) as [t' | ] eqn:E; [ | discriminate].
  intros [= <-]. exact (strptime_whole_second _ _ E).
Qed.

End ParsingProofs.

Lemma parse_dob_str_witness :
  valid_datetime born = true /\ microsecond born = 0 /\
  datetime_str born = text_of_string "2000-03-15 10:00:00" /\
  parse_dob (U := latin1) (datetime_str born) = Ok born.
Proof.
  split; [reflexivity | split; [reflexivity | split; [reflexivity | ]]].
  apply (parse_dob_str (U := latin1) born); reflexivity.
Defined.

Lemma parse_dob_short_witness :
  let t := dt 2000 3 5 7 8 9 in
  datetime_short t = text_of_string "2000-3-5 7:8:9" /\
  parse_dob (U := latin1) (datetime_short t) = Ok t.
Proof.
  cbv zeta. split; [reflexivity | ].
  apply (parse_dob_short (U := latin1) (dt 2000 3 5 7 8 9)); reflexivity.
Defined.

Lemma parse_dob_ignores_blanks_witness :
  parse_dob (U := latin1) ([9; 32] ++ datetime_str born ++ [160; 10])%N
  = parse_dob (U := latin1) (datetime_str born).
Proof.
  apply (parse_dob_ignores_blanks (U := latin1) [9; 32]%N (datetime_str born) [160; 10]%N);
    repeat constructor.
Defined.

Lemma parse_dob_year_digits_witness :
  exists a b c e rest va vb vc ve,
    strip (U := latin1) (text_of_string " 2000-03-15 10:00:00")
      = a :: b :: c :: e :: hyphen :: rest /\
    decimal (Unicode := latin1) a = Some va /\
    decimal (Unicode := latin1) b = Some vb /\
    decimal (Unicode := latin1) c = Some vc /\
    decimal (Unicode := latin1) e = Some ve /\
    year born = 1000 * va + 100 * vb + 10 * vc + ve.
Proof.
  apply (parse_dob_year_digits (U := latin1)
           (text_of_string " 2000-03-15 10:00:00") born).
  reflexivity.
Defined.

Lemma parse_dob_str_fraction_witness :
  let t := mkDatetime 2000 3 15 10 0 0 500000 in
  datetime_str t = text_of_string "2000-03-15 10:00:00.500000" /\
  parse_dob (U := latin1) (datetime_str t)
  = Raise (ValueError_msg invalid_format_message).
Proof.
  cbv zeta. split; [reflexivity | ].
  apply (parse_dob_str_fraction (U := latin1) (mkDatetime 2000 3 15 10 0 0 500000));
    [reflexivity | discriminate].
Defined.

Lemma parse_dob_whole_second_witness :
  valid_datetime (dt 2000 3 5 7 8 9) = true /\
  microsecond (dt 2000 3 5 7 8 9) = 0.
Proof.
  apply (parse_dob_whole_second (U := latin1)
           (text_of_string "2000-3-5  7:8:9") (dt 2000 3 5 7 8 9)).
  reflexivity.
Defined.

(** ** [storage.py] *)

Section StorageProofs.

Import Storage.

Context {R : CsvRoundTrip}.


(** Saving does not make a file unreadable. *)
Lemma save_dob_readable s file :
  file <> Unreadable -> save_dob s file <> Unreadable.
Proof.
  destruct file as [ | dobs | dobs | ]; intros Hf; [ | | | contradiction];
    cbn -[among]; try destruct (among s dobs); discriminate.
Qed.








End StorageProofs.



(** ** [ui.py] *)

Section UiProofs.

Context {U : Unicode} {R : Storage.CsvRoundTrip}.

Import Storage AgeCounterUI.

Lemma update_ui_cases now st :
  match dob st with
  | None => update_ui now st = Ok st
  | Some d =>
      match calculate_detailed_age now d with
      | Raise e => update_ui now st = Raise e
      | Ok a =>
          exists st',
            update_ui now st = Ok st' /\
            label_text st' = render a /\
            last_second st' = Some (seconds a) /\
            dob st' = dob st /\ entry st' = entry st /\ error st' = error st /\
            menu st' = menu st /\
            pending_updates st' = S (pending_updates st)
      end
  end.
Proof.
  unfold update_ui. destruct (dob st) as [d | ] eqn:Ed; [ | reflexivity].
  destruct (calculate_detailed_age now d) as [a | e]; cbn [bind]; [ | reflexivity].
  eexists. split; [reflexivity | ].
  cbn [last_second set_label_text].
  destruct (same_second (last_second st) (seconds a)) eqn:Es.
  - unfold same_second in Es. destruct (last_second st) as [s' | ] eqn:El;
      [ | discriminate].
    apply Z.eqb_eq in Es. subst s'.
    unfold pending_updates, call_after, set_label_text.
    cbn [label_text last_second dob entry error menu after].
    rewrite filter_app, length_app. cbn [filter snd List.length].
    repeat split; try assumption; lia.
  - unfold pending_updates, call_after, set_last_second, flash_red, call_after,
      set_label_fg, set_label_text.
    cbn [label_text last_second dob entry error menu after].
    rewrite !filter_app, !length_app. cbn [filter snd List.length].
    repeat split; try assumption; lia.
Qed.

Lemma refresh_dropdown_keeps file st st' :
  refresh_dropdown file st = Some st' ->
  dob st' = dob st /\ entry st' = entry st /\ after st' = after st /\
  label_text st' = label_text st /\ last_second st' = last_second st /\
  saved_dobs st' = rows file /\
  menu st' = map (fun v => (v, SetOnly)) (rows file).
Proof.
  unfold refresh_dropdown, rows.
  destruct (load_dobs file) as [saved | ]; [ | discriminate].
  intros [= <-]. destruct (List.rev saved); cbn; auto 10.
Qed.


(** X19: a date of birth in the future is refused with the message, and
    nothing is stored; but [self.dob] has been set before the check, so a
    counter that is already running goes on with the refused date: the next
    pending [update_ui] shows the breakdown for it. *)
Theorem refused_future_dob_takes_over clock0 clock1 file st d i ms now a :
  parse_dob (entry st) = Ok d ->
  datetime_gt d clock0 = true ->
  nth_error (after st) i = Some (ms, UpdateUi) ->
  calculate_detailed_age now d = Ok a ->
  let st' := snd (start_counter clock0 clock1 file st) in
  fst (start_counter clock0 clock1 file st) = file /\
  error st' = Some (Python (ValueError_msg future_dob_message)) /\
  label_text st' = label_text st /\
  dob st' = Some d /\
  label_text (fire i now st') = render a.
Proof.
  intros Ep Hgt Hi Ha. unfold start_counter. rewrite Ep, Hgt. cbn [fst snd].
  cbv zeta. repeat (split; [reflexivity | ]).
  unfold fire. cbn [after set_error set_dob]. rewrite Hi.
  match goal with
  | |- context [update_ui now ?s] =>
      remember s as s2 eqn:Es2;
      pose proof (update_ui_cases now s2) as Hu;
      assert (dob s2 = Some d) as Hd2 by (subst s2; reflexivity)
  end.
  rewrite Hd2, Ha in Hu. destruct Hu as (st2 & -> & Hl & _).
  exact Hl.
Qed.

(** X20: [start_counter] never cancels a pending [update_ui]: the number of
    pending calls stays when the start is refused or fails, and grows by
    one each time a start goes through, so that after several starts as
    many refresh loops run side by side. *)
Theorem start_counter_pending_updates clock0 clock1 file st :
  let st' := snd (start_counter clock0 clock1 file st) in
  pending_updates st'
  = (pending_updates st
     + match error st' with None => 1 | Some _ => 0 end)%nat.
Proof.
  cbv zeta. unfold start_counter.
  assert (forall c s, pending_updates (set_error (Some c) s)
                      = (pending_updates s
                         + match error (set_error (Some c) s) with
                           | None => 1
                           | Some _ => 0
                           end)%nat) as Hrefused
    by (intros c s; unfold pending_updates; cbn [after error set_error]; lia).
  assert (forall v, pending_updates (set_dob v st) = pending_updates st)
    as Hdob by reflexivity.
  destruct (parse_dob (entry st)) as [d | e]; cbn [snd]; [ | apply Hrefused].
  destruct (datetime_gt d clock0); cbn [snd];
    [rewrite Hrefused, Hdob; cbn [error set_error]; lia | ].
  destruct (refresh_dropdown _ _) as [st1 | ] eqn:Er; cbn [snd];
    [ | rewrite Hrefused, Hdob; cbn [error set_error]; lia].
  apply refresh_dropdown_keeps in Er as (Hd & _ & Haf & _).
  cbn [after set_dob] in Haf.
  assert (pending_updates (set_error None st1) = pending_updates st) as Hp
    by (unfold pending_updates; cbn [after set_error]; rewrite Haf; reflexivity).
  pose proof (update_ui_cases clock1 (set_error None st1)) as Hu.
  assert (dob (set_error None st1) = Some d) as Hd2 by (cbn; rewrite Hd; reflexivity).
  rewrite Hd2 in Hu.
  destruct (calculate_detailed_age clock1 d) as [a | e].
  - destruct Hu as (st2 & -> & _ & _ & _ & _ & He & _ & Hn).
    cbn [snd]. rewrite He, Hn, Hp. cbn. lia.
  - rewrite Hu. cbn [snd]. rewrite Hrefused.
    unfold pending_updates in *. cbn [after error set_error] in *. lia.
Qed.

(** X21: the entries that [OptionMenu] builds at start-up fill the entry
    field when chosen; the entries that [refresh_dropdown] puts in their
    place only set the dropdown variable, and choosing one of them leaves
    the entry field as it is. *)
Theorem dropdown_entries file st0 st st' i v c :
  (init file = Some st0 -> nth_error (menu st0) i = Some (v, c) ->
   v <> no_saved_dobs -> entry (choose i st0) = v) /\
  (refresh_dropdown file st = Some st' -> entry (choose i st') = entry st').
Proof.
  split.
  - unfold init. destruct (load_dobs file) as [saved | ]; [ | discriminate].
    intros [= <-]. cbn [menu]. intros Hi Hv.
    unfold choose. cbn [menu]. rewrite Hi.
    assert (c = SetAndSelect) as ->.
    { apply nth_error_In in Hi. cbn [map] in Hi. destruct Hi as [[= _ <-] | Hi];
        [reflexivity | ].
      apply in_map_iff in Hi as (x & [= _ <-] & _). reflexivity. }
    unfold select_saved_dob, text_eqb.
    destruct (list_eq_dec N.eq_dec v no_saved_dobs); [contradiction | reflexivity].
  - intros Hr. apply refresh_dropdown_keeps in Hr as (_ & _ & _ & _ & _ & _ & Hm).
    unfold choose. rewrite Hm.
    destruct (nth_error _ i) as [[v' c'] | ] eqn:Hi; [ | reflexivity].
    apply nth_error_In, in_map_iff in Hi as (x & [= _ <-] & _). reflexivity.
Qed.

(** X22: [self.dob] is only ever unset or a well-formed datetime on a
    whole second, which is what the properties of [calculate_detailed_age]
    ask of the origin: the object starts that way, and choosing from the
    dropdown, [start_counter] and a pending call leave it so. *)
Theorem dob_invariant clock0 clock1 now file st i :
  (forall st0, init file = Some st0 -> whole_second_dob st0) /\
  (whole_second_dob st ->
   whole_second_dob (choose i st) /\
   whole_second_dob (snd (start_counter clock0 clock1 file st)) /\
   whole_second_dob (fire i now st)).
Proof.
  split.
  - unfold init. intros st0. destruct (load_dobs file); [ | discriminate].
    intros [= <-]. exact I.
  - intros Hst. split; [ | split].
    + unfold choose. destruct (nth_error (menu st) i) as [[v []] | ];
        try exact Hst.
      unfold select_saved_dob. destruct (text_eqb v no_saved_dobs); exact Hst.
    + unfold start_counter.
      destruct (parse_dob (entry st)) as [d | e] eqn:Ep; cbn [snd]; [ | exact Hst].
      unfold parse_dob in Ep.
      destruct (strptime (strip (entry st))) as [d' | ] eqn:Es; [ | discriminate].
      injection Ep as ->. apply strptime_whole_second in Es as Ep.
      destruct (datetime_gt d clock0); cbn [snd]; [exact Ep | ].
      destruct (refresh_dropdown _ _) as [st1 | ] eqn:Er; cbn [snd]; [ | exact Ep].
      apply refresh_dropdown_keeps in Er as (Hd & _).
      cbn [dob set_dob] in Hd.
      pose proof (update_ui_cases clock1 (set_error None st1)) as Hu.
      assert (dob (set_error None st1) = Some d) as Hd2 by exact Hd.
      rewrite Hd2 in Hu.
      destruct (calculate_detailed_age clock1 d) as [a | e].
      * destruct Hu as (st2 & -> & _ & _ & Hd3 & _). cbn [snd].
        unfold whole_second_dob. rewrite Hd3. exact Ep.
      * rewrite Hu. cbn [snd]. unfold whole_second_dob.
        cbn [dob set_error]. rewrite Hd. exact Ep.
    + unfold fire. destruct (nth_error (after st) i) as [[ms []] | ];
        [ | exact Hst | exact Hst].
      match goal with
      | |- context [update_ui now ?s] =>
          remember s as s2 eqn:Es2;
          pose proof (update_ui_cases now s2) as Hu;
          assert (dob s2 = dob st) as Hd2 by (subst s2; reflexivity);
          assert (whole_second_dob s2) as Hs2
            by (unfold whole_second_dob; rewrite Hd2; exact Hst)
      end.
      destruct (dob s2) as [d | ] eqn:Ed.
      * destruct (calculate_detailed_age now d) as [a | e].
        -- destruct Hu as (st2 & -> & _ & _ & Hd3 & _).
           unfold whole_second_dob in *. rewrite Hd3. rewrite Ed in Hs2.
           exact Hs2.
        -- rewrite Hu. exact Hs2.
      * rewrite Hu. exact Hs2.
Qed.

(** Taking a pending [update_ui] off the list leaves one fewer. *)
Lemma remove_nth_update (l : list (Z * callback)) : forall i ms,
  nth_error l i = Some (ms, UpdateUi) ->
  S (List.length (filter (fun c => match snd c with
                                   | UpdateUi => true
                                   | ResetColour => false
                                   end) (remove_nth i l)))
  = List.length (filter (fun c => match snd c with
                                  | UpdateUi => true
                                  | ResetColour => false
                                  end) l).
Proof.
  unfold remove_nth.
  induction l as [ | [ms' cb] l IH]; intros [ | i] ms Hi; try discriminate.
  - injection Hi as -> ->. reflexivity.
  - cbn [nth_error] in Hi. specialize (IH i ms Hi).
    cbn [firstn skipn app filter snd] in *.
    destruct cb; cbn [List.length]; lia.
Qed.

(** X23: the refresh loop keeps itself going as long as the computation
    returns: a pending [update_ui] that runs shows the breakdown for the
    clock and leaves as many [update_ui] calls pending as before.  When the
    computation raises, the call is gone and nothing has replaced it: the
    label keeps its last text, no message is shown, and that loop has
    ended. *)
Theorem update_loop now st i ms d :
  nth_error (after st) i = Some (ms, UpdateUi) ->
  dob st = Some d ->
  let st' := fire i now st in
  match calculate_detailed_age now d with
  | Ok a =>
      label_text st' = render a /\ error st' = error st /\
      pending_updates st' = pending_updates st
  | Raise _ =>
      label_text st' = label_text st /\ error st' = error st /\
      S (pending_updates st') = pending_updates st
  end.
Proof.
  intros Hi Hd. cbv zeta. unfold fire. rewrite Hi.
  pose proof (remove_nth_update (after st) i ms Hi) as Hn.
  match goal with
  | |- context [update_ui now ?s] =>
      remember s as s2 eqn:Es2;
      pose proof (update_ui_cases now s2) as Hu;
      assert (dob s2 = Some d) as Hd2 by (subst s2; exact Hd);
      assert (S (pending_updates s2) = pending_updates st) as Hp
        by (subst s2; exact Hn);
      assert (label_text s2 = label_text st) as Hl by (subst s2; reflexivity);
      assert (error s2 = error st) as He by (subst s2; reflexivity)
  end.
  rewrite Hd2 in Hu.
  destruct (calculate_detailed_age now d) as [a | e].
  - destruct Hu as (st2 & -> & Hl2 & _ & _ & _ & He2 & _ & Hn2).
    repeat split; congruence.
  - rewrite Hu. auto.
Qed.

End UiProofs.


Lemma refused_future_dob_takes_over_witness :
  let clock := dt 2024 3 14 10 0 0 in
  let now := dt 2024 3 14 10 0 1 in
  let d := dt 2030 1 1 0 0 0 in
  let file := Storage.Table [datetime_str born] in
  let st :=
    AgeCounterUI.mkState (datetime_str d) (Some born) (Some 0)
      [datetime_str born] (datetime_str born)
      [(datetime_str born, AgeCounterUI.SetOnly)]
      (AgeCounterUI.render (mkAge 23 11 28 0 0 0)) AgeCounterUI.black None
      [(1000, AgeCounterUI.UpdateUi)] in
  let st' := snd (AgeCounterUI.start_counter (U := latin1) (R := Storage.verbatim)
        clock clock file st) in
  fst (AgeCounterUI.start_counter (U := latin1) (R := Storage.verbatim)
        clock clock file st) = file /\
  AgeCounterUI.error st'
  = Some (AgeCounterUI.Python (ValueError_msg future_dob_message)) /\
  AgeCounterUI.label_text st' = AgeCounterUI.label_text st /\
  AgeCounterUI.dob st' = Some d /\
  AgeCounterUI.label_text (AgeCounterUI.fire 0 now st')
  = AgeCounterUI.render (mkAge (-6) 2 13 10 0 1).
Proof.
  cbv zeta.
  apply (refused_future_dob_takes_over (U := latin1) (R := Storage.verbatim)
           (dt 2024 3 14 10 0 0) (dt 2024 3 14 10 0 0)
           (Storage.Table [datetime_str born]) _ (dt 2030 1 1 0 0 0) 0%nat 1000
           (dt 2024 3 14 10 0 1) (mkAge (-6) 2 13 10 0 1)); reflexivity.
Defined.

Lemma dropdown_entries_witness :
  let file := Storage.Table [datetime_str born] in
  let st0 := AgeCounterUI.mkState [] None None [datetime_str born]
               (datetime_str born)
               [(datetime_str born, AgeCounterUI.SetAndSelect);
                (datetime_str born, AgeCounterUI.SetAndSelect)]
               [] AgeCounterUI.black None [] in
  let st' := AgeCounterUI.mkState [] None None [datetime_str born]
               (datetime_str born)
               [(datetime_str born, AgeCounterUI.SetOnly)]
               [] AgeCounterUI.black None [] in
  AgeCounterUI.init file = Some st0 /\
  AgeCounterUI.refresh_dropdown file st0 = Some st' /\
  AgeCounterUI.entry (AgeCounterUI.choose 0 st0) = datetime_str born /\
  AgeCounterUI.entry (AgeCounterUI.choose 0 st') = AgeCounterUI.entry st'.
Proof.
  cbv zeta.
  split; [reflexivity | split; [reflexivity | ]].
  match goal with
  | |- _ (_ ?st0) = _ /\ _ (_ ?st') = _ =>
      destruct (dropdown_entries (Storage.Table [datetime_str born]) st0 st0 st'
                  0%nat (datetime_str born) AgeCounterUI.SetAndSelect) as [H1 H2]
  end.
  split; [apply H1; [reflexivity | reflexivity | discriminate] | apply H2; reflexivity].
Defined.

Lemma dob_invariant_witness :
  let clock := dt 2024 3 14 10 0 0 in
  let st := AgeCounterUI.set_entry (datetime_str born) idle in
  let st' := snd (AgeCounterUI.start_counter (U := latin1) (R := Storage.verbatim)
        clock clock Storage.Absent st) in
  whole_second_dob idle /\ AgeCounterUI.dob st' = Some born /\ whole_second_dob st'.
Proof.
  cbv zeta.
  destruct (dob_invariant (U := latin1) (R := Storage.verbatim)
              (dt 2024 3 14 10 0 0) (dt 2024 3 14 10 0 0)
              (dt 2024 3 14 10 0 0) Storage.Absent
              (AgeCounterUI.set_entry (datetime_str born) idle) 0%nat)
    as [Hinit Hstep].
  split; [exact (Hinit idle eq_refl) | ].
  split; [reflexivity | ].
  exact (proj1 (proj2 (Hstep I))).
Defined.

Lemma update_loop_witness :
  let st :=
    AgeCounterUI.mkState [] (Some (dt 2000 1 31 0 0 0)) (Some 59) [] []
      [] (AgeCounterUI.render (mkAge 24 0 29 23 59 59)) AgeCounterUI.black None
      [(1000, AgeCounterUI.UpdateUi)] in
  let st' := AgeCounterUI.fire 0 (dt 2024 3 1 0 0 0) st in
  AgeCounterUI.label_text st' = AgeCounterUI.label_text st /\
  AgeCounterUI.error st' = AgeCounterUI.error st /\
  S (pending_updates st') = pending_updates st.
Proof.
  cbv zeta.
  apply (update_loop (dt 2024 3 1 0 0 0) _ 0%nat 1000 (dt 2000 1 31 0 0 0));
    reflexivity.
Defined.

(** *** The object and the function *)

(** X24: when the guard of [start_counter] has let an origin through and
    the clock has not gone back between its two readings, the breakdown
    shown has [years >= 0], [months] in 0..11, [hours] in 0..23, [minutes]
    and [seconds] in 0..59 and [days >= -1]. *)
Theorem accepted_origin_ranges clock0 clock1 dob a :
  valid_datetime clock1 = true -> valid_datetime dob = true ->
  datetime_le clock0 clock1 = true ->
  start_counter clock0 clock1 dob = Ok a ->
  0 <= years a /\ 0 <= months a <= 11 /\ 0 <= hours a <= 23 /\
  0 <= minutes a <= 59 /\ 0 <= seconds a <= 59 /\ -1 <= days a.
Proof.
  intros H1 Hd Hclock. unfold start_counter, datetime_gt.
  destruct (datetime_lt clock0 dob) eqn:Eg; [discriminate | ].
  intros Ha.
  assert (datetime_le dob clock1 = true) as Hle
    by (apply (datetime_le_trans dob clock0 clock1);
        [apply datetime_le_iff; exact Eg | exact Hclock]).
  destruct (days_spec clock1 dob H1 Hd a Ha) as (gap & Hdays & Hgap & _).
  destruct (calculate_detailed_age_inv _ _ _ Ha) as (lb & _ & Ea).
  pose proof (td_seconds_range clock1 lb) as Hs.
  pose proof (age_years_nonneg clock1 dob Hle) as Hy.
  apply valid_datetime_iff in H1, Hd.
  pose proof (age_months_range clock1 dob ltac:(lia) ltac:(lia)) as Hm.
  subst a. cbn [years months days hours minutes seconds] in *.
  destruct (second_of_day clock1 <? second_of_day dob);
    repeat split; try lia; euclid.
Qed.

Lemma accepted_origin_ranges_witness :
  let a := mkAge 23 11 28 0 0 0 in
  0 <= years a /\ 0 <= months a <= 11 /\ 0 <= hours a <= 23 /\
  0 <= minutes a <= 59 /\ 0 <= seconds a <= 59 /\ -1 <= days a.
Proof.
  cbv zeta.
  apply (accepted_origin_ranges (dt 2024 3 14 9 59 59) (dt 2024 3 14 10 0 0)
           born (mkAge 23 11 28 0 0 0)); reflexivity.
Defined.

(** X25: the object and the function agree: once the text is parsed and the
    file can be read, [AgeCounterUI.start_counter] shows what the guard
    followed by [calculate_detailed_age] gives, the breakdown in the label
    with the error cleared, or the exception in the error label with the
    label untouched. *)
Theorem start_counter_shows {U : Unicode} {R : Storage.CsvRoundTrip}
    clock0 clock1 file st d :
  parse_dob (AgeCounterUI.entry st) = Ok d -> file <> Storage.Unreadable ->
  let st' := snd (AgeCounterUI.start_counter clock0 clock1 file st) in
  match start_counter clock0 clock1 d with
  | Ok a =>
      AgeCounterUI.label_text st' = AgeCounterUI.render a /\
      AgeCounterUI.error st' = None
  | Raise e =>
      AgeCounterUI.label_text st' = AgeCounterUI.label_text st /\
      AgeCounterUI.error st' = Some (AgeCounterUI.Python e)
  end.
Proof.
  intros Ep Hf. cbv zeta.
  unfold AgeCounterUI.start_counter, start_counter. rewrite Ep.
  destruct (datetime_gt d clock0); cbn [snd]; [split; reflexivity | ].
  pose proof (save_dob_readable (AgeCounterUI.entry st) file Hf) as Hf'.
  destruct (AgeCounterUI.refresh_dropdown _ _) as [st1 | ] eqn:Er.
  - apply refresh_dropdown_keeps in Er as (Hd & _ & _ & Hl & _).
    pose proof (update_ui_cases clock1 (AgeCounterUI.set_error None st1)) as Hu.
    assert (AgeCounterUI.dob (AgeCounterUI.set_error None st1) = Some d) as Hd2
      by (cbn; rewrite Hd; reflexivity).
    rewrite Hd2 in Hu.
    destruct (calculate_detailed_age clock1 d) as [a | e].
    + destruct Hu as (st2 & -> & Hl2 & _ & _ & _ & He & _).
      cbn [snd]. split; [exact Hl2 | exact He].
    + rewrite Hu. cbn [snd]. split; [exact Hl | reflexivity].
  - exfalso. unfold AgeCounterUI.refresh_dropdown in Er.
    destruct (Storage.save_dob (AgeCounterUI.entry st) file); try discriminate.
    contradiction.
Qed.

Lemma start_counter_shows_witness :
  let clock := dt 2024 3 14 10 0 0 in
  let st := AgeCounterUI.set_entry (datetime_str born) idle in
  let st' := snd (AgeCounterUI.start_counter (U := latin1) (R := Storage.verbatim)
        clock clock Storage.Absent st) in
  AgeCounterUI.label_text st' = AgeCounterUI.render (mkAge 23 11 28 0 0 0) /\
  AgeCounterUI.error st' = None.
Proof.
  cbv zeta.
  apply (start_counter_shows (U := latin1) (R := Storage.verbatim)
           (dt 2024 3 14 10 0 0) (dt 2024 3 14 10 0 0)
           Storage.Absent (AgeCounterUI.set_entry (datetime_str born) idle) born);
    [reflexivity | discriminate].
Defined.
